(** * Bezier curve editors: evaluation and interaction model

    Shallow embedding of the two curve editors of the repository:
    - [BezierCurve]: the class of [src/source.cpp] (points in device space,
      curve sampled with a fixed parameter step, drag handle kept as an
      iterator, position committed on release);
    - [Editor]: the globals and callbacks of [src/unnamed/part_000] (flat
      coordinate buffer in render space, curve sampled at a fixed
      resolution, drag handle kept as an index, live update on every move).

    Scalars are IEEE-754 numbers, computed with the executable specification
    of [SpecFloat]: [float] is binary32 and [double] is binary64, rounding
    to nearest even. Every operation is rounded to the type the source
    gives it (no excess precision, no fused multiply-add). *)

From Stdlib Require Import ZArith Bool Lia ZifyNat.
From Stdlib Require Import Floats.SpecFloat.
From stdpp Require Import base list.

(** [lia] also solves goals with division by a constant. *)
Ltac Zify.zify_post_hook ::= Z.to_euclidean_division_equations.

(** ** Floating point *)

Module F32.
Definition prec : Z := 24.
Definition emax : Z := 128.
Definition float := spec_float.

Definition add : float -> float -> float := SFadd prec emax.
Definition sub : float -> float -> float := SFsub prec emax.
Definition mul : float -> float -> float := SFmul prec emax.
Definition div : float -> float -> float := SFdiv prec emax.
Definition opp : float -> float := SFopp.
Definition ltb : float -> float -> bool := SFltb.
Definition leb : float -> float -> bool := SFleb.
Definition eqb : float -> float -> bool := SFeqb.

(** Conversion of an [int] to [float]. *)
Definition of_Z (z : Z) : float := binary_normalize prec emax z 0 false.

(** The literal written [num/den] in decimal (0.0001f is [lit 1 10000]):
    both integers are exact in binary32 and the division rounds
    correctly, which is the value a compiler gives the literal. *)
Definition lit (num den : Z) : float := div (of_Z num) (of_Z den).

Definition zero : float := of_Z 0.
Definition one : float := of_Z 1.
Definition two : float := of_Z 2.

(** A number that is neither an infinity nor a NaN, in canonical form. *)
Definition finite (x : float) : bool :=
  match x with
  | S754_zero _ => true
  | S754_finite _ m e => bounded prec emax m e
  | _ => false
  end.

Definition is_zero (x : float) : bool :=
  match x with S754_zero _ => true | _ => false end.

(** The same number, up to the sign of a zero. *)
Definition same (a b : float) : Prop :=
  a = b \/ (is_zero a = true /\ is_zero b = true).

(** The value of [1 / s] rounded down, for a positive finite [s]. *)
Definition floor_inv (s : float) : Z :=
  match s with
  | S754_finite false m e =>
      if (e <=? 0)%Z then (2 ^ (- e) / Z.pos m)%Z else (1 / (Z.pos m * 2 ^ e))%Z
  | _ => 0%Z
  end.
End F32.

Module F64.
Definition prec : Z := 53.
Definition emax : Z := 1024.
Definition double := spec_float.

Definition add : double -> double -> double := SFadd prec emax.
Definition mul : double -> double -> double := SFmul prec emax.
Definition sqrt : double -> double := SFsqrt prec emax.
Definition leb : double -> double -> bool := SFleb.
Definition of_Z (z : Z) : double := binary_normalize prec emax z 0 false.

(** Promotion of a [float] to [double]: exact, the mantissa is realigned
    to 53 bits. *)
Definition of_float (x : F32.float) : double :=
  match x with
  | S754_finite s m e => binary_normalize prec emax (cond_Zopp s (Zpos m)) e s
  | _ => x
  end.

(** [(float)d]: rounds a [double] to binary32. *)
Definition to_float (d : double) : F32.float :=
  match d with
  | S754_finite s m e =>
      binary_normalize F32.prec F32.emax (cond_Zopp s (Zpos m)) e s
  | _ => d
  end.

(** [std::pow(x, 2)] on a promoted [float]: the square, which binary64
    holds exactly. *)
Definition pow2 (x : F32.float) : double := mul (of_float x) (of_float x).
End F64.

(** ** Outcomes of the embedded code

    [OutOfRange] is an access through [operator[]] or an iterator outside
    the vector (undefined behaviour in the source); [OutOfFuel] is a loop of
    the model that did not finish within its fuel. *)

Inductive result (A : Type) : Type :=
  | Ok (a : A)
  | OutOfRange
  | OutOfFuel.
Arguments Ok {A} a.
Arguments OutOfRange {A}.
Arguments OutOfFuel {A}.

#[global] Instance result_ret : MRet result := @Ok.
#[global] Instance result_bind : MBind result :=
  fun A B f m =>
    match m with
    | Ok a => f a
    | OutOfRange => OutOfRange
    | OutOfFuel => OutOfFuel
    end.

(** [v[i]] for reading. *)
Definition rd {A : Type} (v : list A) (i : nat) : result A :=
  match v !! i with
  | Some a => Ok a
  | None => OutOfRange
  end.

(** [v[i] = a]. *)
Definition wr {A : Type} (v : list A) (i : nat) (a : A) : result (list A) :=
  if decide (i < length v) then Ok (<[i := a]> v) else OutOfRange.

(** [v[i] = a] with an [int] index. *)
Definition wr_int {A : Type} (v : list A) (i : Z) (a : A) : result (list A) :=
  if (i <? 0)%Z then OutOfRange else wr v (Z.to_nat i) a.

(** [v.erase(v.begin() + i, v.begin() + i + n)] for a range inside [v]. *)
Definition erase {A : Type} (v : list A) (i n : nat) : list A :=
  take i v ++ drop (i + n) v.

(** GLFW constants (from GLFW/glfw3.h). *)
Definition GLFW_RELEASE : Z := 0.
Definition GLFW_PRESS : Z := 1.
Definition GLFW_MOUSE_BUTTON_LEFT : Z := 0.
Definition GLFW_MOUSE_BUTTON_RIGHT : Z := 1.
Definition GLFW_KEY_SPACE : Z := 32.
Definition GLFW_KEY_ENTER : Z := 257.
Definition GLFW_KEY_DELETE : Z := 261.

(** ** The step-based editor: class [BezierCurve] of src/source.cpp *)

Module BezierCurve.
Import F32.

Definition POINT_THRESHOLD : float := of_Z 10.
Definition CURVE_STEP : float := lit 1 10000.

Record Point : Type := mkPoint { p_x : float; p_y : float }.

(** [Point::operator*(float t)] *)
Definition Point_mul (p : Point) (t : float) : Point :=
  mkPoint (mul t (p_x p)) (mul t (p_y p)).

(** [Point::operator+(const Point&)] *)
Definition Point_add (p q : Point) : Point :=
  mkPoint (add (p_x p) (p_x q)) (add (p_y p) (p_y q)).

(** Both coordinates are finite numbers. *)
Definition Point_finite (p : Point) : Prop :=
  finite (p_x p) = true /\ finite (p_y p) = true.

(** The same point, up to the sign of zero coordinates. *)
Definition Point_same (p q : Point) : Prop :=
  same (p_x p) (p_x q) /\ same (p_y p) (p_y q).

(** [p.x == q.x && p.y == q.y] *)
Definition Point_eqb (p q : Point) : bool :=
  eqb (p_x p) (p_x q) && eqb (p_y p) (p_y q).

Definition is_close (p1 p2 : Point) : bool :=
  F64.leb
    (F64.sqrt (F64.add (F64.pow2 (sub (p_x p1) (p_x p2)))
                       (F64.pow2 (sub (p_y p1) (p_y p2)))))
    (F64.of_float POINT_THRESHOLD).

(** [temp[i] = temp[i] * (1 - t) + temp[i + 1] * t] *)
Definition blend (t : float) (temp : list Point) (i : nat) : result (list Point) :=
  a ← rd temp i;
  b ← rd temp (S i);
  wr temp i (Point_add (Point_mul a (sub one t)) (Point_mul b t)).

(** [for (i = from; i < from + cnt; ++i) blend] *)
Fixpoint blend_row (t : float) (cnt from : nat) (temp : list Point) : result (list Point) :=
  match cnt with
  | O => Ok temp
  | S cnt' => temp' ← blend t temp from; blend_row t cnt' (S from) temp'
  end.

(** [for (k = from; k < from + cnt; ++k) for (i = 0; i < size - k; ++i) blend] *)
Fixpoint blend_rows (t : float) (size cnt from : nat) (temp : list Point) : result (list Point) :=
  match cnt with
  | O => Ok temp
  | S cnt' =>
      temp' ← blend_row t (size - from) 0 temp;
      blend_rows t size cnt' (S from) temp'
  end.

(** De Casteljau's algorithm: returns [curve_points] after the call. *)
Definition compute_point (t : float) (control_points curve_points : list Point)
  : result (list Point) :=
  temp ← blend_rows t (length control_points) (length control_points - 1) 1 control_points;
  match temp with
  | [] => Ok curve_points
  | p :: _ => Ok (curve_points ++ [p])
  end.

(** [for (float t = ...; t <= 1.0f; t += CURVE_STEP) compute_point(t)] *)
Fixpoint curve_loop (fuel : nat) (t : float) (control_points curve_points : list Point)
  : result (list Point) :=
  match fuel with
  | O => OutOfFuel
  | S fuel' =>
      if leb t one then
        curve_points' ← compute_point t control_points curve_points;
        curve_loop fuel' (add t CURVE_STEP) control_points curve_points'
      else Ok curve_points
  end.

(** The values [t] takes in [curve_loop]. *)
Fixpoint curve_params (fuel : nat) (t : float) : option (list float) :=
  match fuel with
  | O => None
  | S fuel' =>
      if leb t one then
        ts ← curve_params fuel' (add t CURVE_STEP); Some (t :: ts)
      else Some []
  end.

(** Fuel of [curve_loop]; [curve_params_fuel] below shows it is enough. *)
Definition curve_fuel : nat := Z.to_nat 20000.

(** Returns [curve_points] after the call. *)
Definition compute_curve (control_points : list Point) : result (list Point) :=
  if decide (2 <= length control_points)
  then curve_loop curve_fuel zero control_points []
  else Ok [].

(** The iterator [move_iter] is kept as its offset from
    [control_points.begin()]: no operation reallocates the vector while
    [is_moving] holds, so the iterator keeps naming the same slot. *)
Record state : Type := mkState {
  control_points : list Point;
  curve_points : list Point;
  moving_points : list Point;
  move_iter : nat;
  is_moving : bool;
  is_deleting : bool
}.

Definition init : state := mkState [] [] [] 0 false false.

(** [for (auto it = begin(); it != end(); ++it) if (is_close( *it, q))]:
    offset of the first point close to [q]. *)
Fixpoint find_close (q : Point) (from : nat) (l : list Point) : option nat :=
  match l with
  | [] => None
  | p :: l' => if is_close p q then Some from else find_close q (S from) l'
  end.

Definition handle_mouse_press (x y : float) (button : Z) (st : state) : result state :=
  if (button =? GLFW_MOUSE_BUTTON_LEFT)%Z && negb (is_moving st) then
    match find_close (mkPoint x y) 0 (control_points st) with
    | Some it =>
        Ok (mkState (control_points st) (curve_points st)
                    (moving_points st ++ [mkPoint x y]) it true (is_deleting st))
    | None => Ok st
    end
  else if (button =? GLFW_MOUSE_BUTTON_RIGHT)%Z then
    match find_close (mkPoint x y) 0 (control_points st) with
    | Some it =>
        let control_points' := erase (control_points st) it 1 in
        curve_points' ← compute_curve control_points';
        Ok (mkState control_points' curve_points' (moving_points st)
                    (move_iter st) (is_moving st) (is_deleting st))
    | None => Ok st
    end
  else Ok st.

Definition handle_mouse_release (x y : float) (button : Z) (st : state) : result state :=
  if (button =? GLFW_MOUSE_BUTTON_LEFT)%Z then
    if is_moving st then
      control_points' ← wr (control_points st) (move_iter st) (mkPoint x y);
      curve_points' ← compute_curve control_points';
      Ok (mkState control_points' curve_points' [] (move_iter st) false (is_deleting st))
    else
      let control_points' := control_points st ++ [mkPoint x y] in
      curve_points' ← compute_curve control_points';
      Ok (mkState control_points' curve_points' (moving_points st)
                  (move_iter st) (is_moving st) (is_deleting st))
  else Ok st.

Definition handle_key (key action : Z) (st : state) : result state :=
  if (key =? GLFW_KEY_DELETE)%Z then
    Ok (mkState (control_points st) (curve_points st) (moving_points st)
                (move_iter st) (is_moving st) (action =? GLFW_PRESS)%Z)
  else if (key =? GLFW_KEY_ENTER)%Z && (action =? GLFW_PRESS)%Z then
    Ok (mkState [] [] [] (move_iter st) false false)
  else if (key =? GLFW_KEY_SPACE)%Z && (action =? GLFW_PRESS)%Z then
    Ok (mkState [] [] [] (move_iter st) false false)
  else Ok st.

(** The position [draw_controls] gives the point at offset [it]. *)
Definition drawn_point (st : state) (it : nat) : option Point :=
  p ← control_points st !! it;
  Some (if is_moving st && bool_decide (it = move_iter st)
        then match last (moving_points st) with Some q => q | None => p end
        else p).

(** The callbacks registered by [main]; [x], [y] are the cursor position
    after [static_cast<float>]. *)
Definition mouse_button_callback (button action : Z) (x y : float) (st : state)
  : result state :=
  if (action =? GLFW_PRESS)%Z then handle_mouse_press x y button st
  else if (action =? GLFW_RELEASE)%Z && (button =? GLFW_MOUSE_BUTTON_LEFT)%Z
  then handle_mouse_release x y button st
  else Ok st.

(** [left_down] is [glfwGetMouseButton(win, GLFW_MOUSE_BUTTON_LEFT) == GLFW_PRESS]. *)
Definition cursor_pos_callback (left_down : bool) (x y : float) (st : state)
  : result state :=
  if left_down && is_moving st
  then handle_mouse_press x y GLFW_MOUSE_BUTTON_LEFT st
  else Ok st.

Definition key_callback (key action : Z) (st : state) : result state :=
  handle_key key action st.

(** The public operations of the class that change its state. *)
Inductive op : Type :=
  | Press (x y : float) (button : Z)
  | Release (x y : float) (button : Z)
  | Key (key action : Z)
  | Recompute.

Definition step (o : op) (st : state) : result state :=
  match o with
  | Press x y b => handle_mouse_press x y b st
  | Release x y b => handle_mouse_release x y b st
  | Key k a => handle_key k a st
  | Recompute =>
      curve_points' ← compute_curve (control_points st);
      Ok (mkState (control_points st) curve_points' (moving_points st)
                  (move_iter st) (is_moving st) (is_deleting st))
  end.

Inductive reachable : state -> Prop :=
  | reachable_init : reachable init
  | reachable_step o st st' :
      reachable st -> step o st = Ok st' -> reachable st'.
End BezierCurve.

(** ** The resolution-based editor: src/unnamed/part_000

    The [int] counters and indices of the source are natural numbers or
    integers here; they stay below 2^31 as long as the buffer holds fewer
    than 2^31 coordinates, which the theorems on evaluation assume. *)

Module Editor.
Import F32.

Definition WINDOW_WIDTH : Z := 800.
Definition WINDOW_HEIGHT : Z := 600.
Definition CURVE_RESOLUTION : Z := 100.

(** [size_t] arithmetic and the narrowing to [int]. *)
Definition size_t (z : Z) : Z := z mod 2 ^ 64.
Definition int (z : Z) : Z := (z + 2 ^ 31) mod 2 ^ 32 - 2 ^ 31.

(** The two assignments of the innermost loop body, for one [j]. *)
Definition blend (t : float) (temp : list float) (j : nat) : result (list float) :=
  a ← rd temp (j * 2);
  b ← rd temp ((j + 1) * 2);
  temp ← wr temp (j * 2) (add (mul (sub one t) a) (mul t b));
  c ← rd temp (j * 2 + 1);
  d ← rd temp ((j + 1) * 2 + 1);
  wr temp (j * 2 + 1) (add (mul (sub one t) c) (mul t d)).

(** [for (j = from; j < from + cnt; ++j) blend] *)
Fixpoint blend_row (t : float) (cnt from : nat) (temp : list float) : result (list float) :=
  match cnt with
  | O => Ok temp
  | S cnt' => temp' ← blend t temp from; blend_row t cnt' (S from) temp'
  end.

(** [for (r = from; r < from + cnt; ++r) for (j = 0; j <= n - r; ++j) blend] *)
Fixpoint blend_rows (t : float) (n : Z) (cnt from : nat) (temp : list float)
  : result (list float) :=
  match cnt with
  | O => Ok temp
  | S cnt' =>
      temp' ← blend_row t (Z.to_nat (n - Z.of_nat from + 1)) 0 temp;
      blend_rows t n cnt' (S from) temp'
  end.

(** One iteration of the sampling loop, for the sample [i]. *)
Definition sample (resolution : Z) (points : list float) (n : Z) (curve : list float) (i : Z)
  : result (list float) :=
  let t := div (of_Z i) (of_Z resolution) in
  temp ← blend_rows t n (Z.to_nat n) 1 points;
  x ← rd temp 0;
  y ← rd temp 1;
  Ok (curve ++ [x; y]).

(** [for (i = from; i < from + cnt; ++i) sample] *)
Fixpoint sample_loop (resolution : Z) (points : list float) (n : Z) (cnt : nat) (from : Z)
    (curve : list float) : result (list float) :=
  match cnt with
  | O => Ok curve
  | S cnt' =>
      curve' ← sample resolution points n curve from;
      sample_loop resolution points n cnt' (from + 1) curve'
  end.

(** [computeBezierCurve] with the resolution as an argument. *)
Definition computeBezierCurve_at (resolution : Z) (points : list float) : result (list float) :=
  let n := int (size_t (Z.of_nat (length points) / 2 - 1)) in
  if (n <? 1)%Z then Ok []
  else sample_loop resolution points n (Z.to_nat (resolution + 1)) 0 [].

Definition computeBezierCurve (points : list float) : result (list float) :=
  computeBezierCurve_at CURVE_RESOLUTION points.

Definition screenToGLCoords (x y : F64.double) : float * float :=
  (sub (div (mul two (F64.to_float x)) (of_Z WINDOW_WIDTH)) one,
   sub one (div (mul two (F64.to_float y)) (of_Z WINDOW_HEIGHT))).

(** The globals of the program (the buffers of the GPU are left out). *)
Record state : Type := mkState {
  controlPoints : list float;
  curvePoints : list float;
  dragging : bool;
  draggedIndex : Z
}.

Definition updateBuffers (st : state) : result state :=
  curvePoints' ← computeBezierCurve (controlPoints st);
  Ok (mkState (controlPoints st) curvePoints' (dragging st) (draggedIndex st)).

Definition getPointDistance (controlPoints : list float) (pointIndex : nat) (x y : float)
  : result float :=
  a ← rd controlPoints (pointIndex * 2);
  b ← rd controlPoints (pointIndex * 2 + 1);
  let dx := sub a x in
  let dy := sub b y in
  Ok (add (mul dx dx) (mul dy dy)).

(** [for (i = from; i < from + cnt; ++i) if (... < threshold * threshold) return i;
    return -1] *)
Fixpoint find_loop (controlPoints : list float) (x y threshold : float) (cnt from : nat)
  : result Z :=
  match cnt with
  | O => Ok (-1)%Z
  | S cnt' =>
      d ← getPointDistance controlPoints from x y;
      if ltb d (mul threshold threshold) then Ok (Z.of_nat from)
      else find_loop controlPoints x y threshold cnt' (S from)
  end.

Definition default_threshold : float := lit 3 100.

Definition findPointUnderCursor (controlPoints : list float) (x y threshold : float)
  : result Z :=
  find_loop controlPoints x y threshold (length controlPoints / 2) 0.

(** [xpos], [ypos] are what [glfwGetCursorPos] returns. *)
Definition mouse_button_callback (button action : Z) (xpos ypos : F64.double) (st : state)
  : result state :=
  if (action =? GLFW_PRESS)%Z then
    let '(mx, my) := screenToGLCoords xpos ypos in
    if (button =? GLFW_MOUSE_BUTTON_LEFT)%Z then
      pointIndex ← findPointUnderCursor (controlPoints st) mx my default_threshold;
      if negb (pointIndex =? -1)%Z then
        Ok (mkState (controlPoints st) (curvePoints st) true pointIndex)
      else
        updateBuffers (mkState (controlPoints st ++ [mx; my]) (curvePoints st)
                               (dragging st) (draggedIndex st))
    else if (button =? GLFW_MOUSE_BUTTON_RIGHT)%Z
            && negb (bool_decide (controlPoints st = [])) then
      pointIndex ← findPointUnderCursor (controlPoints st) mx my default_threshold;
      if negb (pointIndex =? -1)%Z then
        if decide (4 < length (controlPoints st)) then
          updateBuffers (mkState (erase (controlPoints st) (Z.to_nat pointIndex * 2) 2)
                                 (curvePoints st) (dragging st) (draggedIndex st))
        else Ok st
      else Ok st
    else Ok st
  else if (action =? GLFW_RELEASE)%Z then
    Ok (mkState (controlPoints st) (curvePoints st) false (-1)%Z)
  else Ok st.

Definition cursor_position_callback (xpos ypos : F64.double) (st : state) : result state :=
  if dragging st && negb (draggedIndex st =? -1)%Z then
    let '(mx, my) := screenToGLCoords xpos ypos in
    controlPoints' ← wr_int (controlPoints st) (draggedIndex st * 2) mx;
    controlPoints' ← wr_int controlPoints' (draggedIndex st * 2 + 1) my;
    updateBuffers (mkState controlPoints' (curvePoints st) (dragging st) (draggedIndex st))
  else Ok st.

(** The four control points [main] starts with. *)
Definition initial_points : list float :=
  [opp (lit 8 10); opp (lit 8 10);
   opp (lit 4 10); lit 9 10;
   lit 4 10; opp (lit 9 10);
   lit 8 10; lit 8 10].

(** The state when [main] enters its loop: the globals, then the
    assignment of the initial points and [updateBuffers]. *)
Definition init : result state :=
  updateBuffers (mkState initial_points [] false (-1)%Z).

Inductive event : Type :=
  | MouseButton (button action : Z) (xpos ypos : F64.double)
  | CursorPos (xpos ypos : F64.double).

Definition step (e : event) (st : state) : result state :=
  match e with
  | MouseButton b a x y => mouse_button_callback b a x y st
  | CursorPos x y => cursor_position_callback x y st
  end.

Inductive reachable : state -> Prop :=
  | reachable_init st : init = Ok st -> reachable st
  | reachable_step e st st' :
      reachable st -> step e st = Ok st' -> reachable st'.
End Editor.

(** The coordinate buffer that holds the points of a list, as the
    resolution-based editor stores them. *)
Definition coordinates (l : list BezierCurve.Point) : list F32.float :=
  p ← l; [BezierCurve.p_x p; BezierCurve.p_y p].

(** ** Circles of the resolution-based editor: src/unnamed/part_000

    [cosf] and [sinf] come from the C library and are arguments here. *)

Module Circle.
Import F32.

Definition CIRCLE_SEGMENTS : Z := 32.

(** [float M_PI = 3.14;]: the [double] literal, rounded to [float]. *)
Definition M_PI : float :=
  F64.to_float (SFdiv F64.prec F64.emax (F64.of_Z 314) (F64.of_Z 100)).

(** [for (i = from; i < from + cnt; i++)] of [generateCircleVertices]. *)
Fixpoint rim (cosf sinf : float -> float) (centerX centerY radius aspect : float)
    (cnt : nat) (from : Z) (vertices : list float) : list float :=
  match cnt with
  | O => vertices
  | S cnt' =>
      let angle := div (mul (mul two M_PI) (of_Z from)) (of_Z CIRCLE_SEGMENTS) in
      let x := add centerX (div (mul radius (cosf angle)) aspect) in
      let y := add centerY (mul radius (sinf angle)) in
      rim cosf sinf centerX centerY radius aspect cnt' (from + 1) (vertices ++ [x; y])
  end.

Definition generateCircleVertices (cosf sinf : float -> float) (centerX centerY radius : float)
  : list float :=
  let aspect := div (of_Z Editor.WINDOW_WIDTH) (of_Z Editor.WINDOW_HEIGHT) in
  rim cosf sinf centerX centerY radius aspect (Z.to_nat (CIRCLE_SEGMENTS + 1)) 0
    [centerX; centerY].
End Circle.

(** ** The lit scene: src/s.cpp

    [cosf] and [sinf] come from the C library and are arguments here.
    [unsigned int] values are integers reduced modulo 2^32. *)

Module Scene.
Import F32.

(** [float M_PI = 3.14;] *)
Definition M_PI : float := Circle.M_PI.

Definition u32 (z : Z) : Z := z mod 2 ^ 32.

(** [for (j = from; j < from + cnt; ++j)]: the vertices of the stack [i]. *)
Fixpoint sector_vertices (cosf sinf : float -> float) (sectors stacks : Z)
    (lengthInv sectorStep xy z : float) (i : Z) (cnt : nat) (from : Z)
    (vertices : list float) : list float :=
  match cnt with
  | O => vertices
  | S cnt' =>
      let sectorAngle := mul (of_Z from) sectorStep in
      let x := mul xy (cosf sectorAngle) in
      let y := mul xy (sinf sectorAngle) in
      let nx := mul x lengthInv in
      let ny := mul y lengthInv in
      let nz := mul z lengthInv in
      let s := div (of_Z from) (of_Z sectors) in
      let t := div (of_Z i) (of_Z stacks) in
      sector_vertices cosf sinf sectors stacks lengthInv sectorStep xy z i cnt' (from + 1)
        (vertices ++ [x; y; z; nx; ny; nz; s; t])
  end.

(** [for (i = from; i < from + cnt; ++i)]: the vertices of the stacks. *)
Fixpoint stack_vertices (cosf sinf : float -> float) (radius : float) (sectors stacks : Z)
    (lengthInv sectorStep stackStep : float) (cnt : nat) (from : Z)
    (vertices : list float) : list float :=
  match cnt with
  | O => vertices
  | S cnt' =>
      let stackAngle := sub (div M_PI (of_Z 2)) (mul (of_Z from) stackStep) in
      let xy := mul radius (cosf stackAngle) in
      let z := mul radius (sinf stackAngle) in
      stack_vertices cosf sinf radius sectors stacks lengthInv sectorStep stackStep
        cnt' (from + 1)
        (sector_vertices cosf sinf sectors stacks lengthInv sectorStep xy z from
           (Z.to_nat (sectors + 1)) 0 vertices)
  end.

(** [for (j = ...; ...; ++j, ++k1, ++k2)], [cnt] iterations left: the
    triangles of the stack [i]. *)
Fixpoint sector_indices (stacks i : Z) (cnt : nat) (k1 k2 : Z) (indices : list Z) : list Z :=
  match cnt with
  | O => indices
  | S cnt' =>
      let indices :=
        if negb (i =? 0)%Z then indices ++ [k1; k2; u32 (k1 + 1)] else indices in
      let indices :=
        if negb (i =? u32 (stacks - 1))%Z then indices ++ [u32 (k1 + 1); k2; u32 (k2 + 1)]
        else indices in
      sector_indices stacks i cnt' (u32 (k1 + 1)) (u32 (k2 + 1)) indices
  end.

(** [for (i = from; i < from + cnt; ++i)]: the triangles of the stacks. *)
Fixpoint stack_indices (sectors stacks : Z) (cnt : nat) (from : Z) (indices : list Z)
  : list Z :=
  match cnt with
  | O => indices
  | S cnt' =>
      let k1 := u32 (from * u32 (sectors + 1)) in
      let k2 := u32 (u32 (k1 + sectors) + 1) in
      stack_indices sectors stacks cnt' (from + 1)
        (sector_indices stacks from (Z.to_nat sectors) k1 k2 indices)
  end.

(** Returns [vertices] and [indices] after the call. *)
Definition createSphere (cosf sinf : float -> float)
    (vertices : list float) (indices : list Z) (radius : float) (sectors stacks : Z)
  : list float * list Z :=
  let lengthInv := div one radius in
  let sectorStep := div (mul (of_Z 2) M_PI) (of_Z sectors) in
  let stackStep := div M_PI (of_Z stacks) in
  (stack_vertices cosf sinf radius sectors stacks lengthInv sectorStep stackStep
     (Z.to_nat (stacks + 1)) 0 vertices,
   stack_indices sectors stacks (Z.to_nat stacks) 0 indices).

(** The light and material switches of the scene. *)
Record switches : Type := mkSwitches {
  lightOn : bool;
  lKeyPressed : bool;
  magentaOn : bool;
  mKeyPressed : bool
}.

(** The two toggles of [processInput]; [key_L] and [key_M] are
    [glfwGetKey(window, GLFW_KEY_L) == GLFW_PRESS] and the same for M. The
    statements before them write the camera globals and the close flag of
    the window only. *)
Definition processInput (key_L key_M : bool) (st : switches) : switches :=
  let st :=
    if key_L then
      if negb (lKeyPressed st)
      then mkSwitches (negb (lightOn st)) true (magentaOn st) (mKeyPressed st)
      else st
    else mkSwitches (lightOn st) false (magentaOn st) (mKeyPressed st) in
  if key_M then
    if negb (mKeyPressed st)
    then mkSwitches (lightOn st) (lKeyPressed st) (negb (magentaOn st)) true
    else st
  else mkSwitches (lightOn st) (lKeyPressed st) (magentaOn st) false.

(** One call of [processInput] per frame of the render loop. *)
Fixpoint frames (keys : list (bool * bool)) (st : switches) : switches :=
  match keys with
  | [] => st
  | (key_L, key_M) :: keys' => frames keys' (processInput key_L key_M st)
  end.

(** Number of frames in which a key is down and was up in the frame
    before ([prev] for the first frame). *)
Fixpoint rising_edges (prev : bool) (downs : list bool) : nat :=
  match downs with
  | [] => 0
  | down :: downs' =>
      (if down && negb prev then 1 else 0) + rising_edges down downs'
  end.
End Scene.

(** ** De Casteljau's algorithm, as the specification words it

    For a parameter [t], the working copy of the points is collapsed by
    interpolating adjacent pairs, [p[i]*(1-t) + p[i+1]*t], for as many
    rounds as the degree, the number of points less one; the single point
    that remains is the point of the curve at [t]. Fewer than 2 points
    give the empty curve. *)

Module Spec.
Import F32 BezierCurve.






End Spec.

(** * Properties *)

(** ** Binary32 facts used by the endpoint property *)

Section FloatFacts.
Import F32.

Lemma iter_shr_1_23 (p : positive) :
  SpecFloat.iter_pos shr_1 23 (Build_shr_record (Z.pos (8388608 * p)) false false)
  = Build_shr_record (Z.pos p) false false.
Proof. reflexivity. Qed.

Lemma mul_one_l (x : float) : finite x = true -> mul one x = x.
Proof.
  change one with (S754_finite false 8388608 (-23)).
  destruct x as [s| | |s m e]; try done.
  unfold finite, mul, SFmul, binary_round_aux, bounded, canonical_mantissa.
  intros Hb.
  apply andb_prop in Hb as [Hc He]. apply Z.eqb_eq in Hc. apply Z.leb_le in He.
  assert (Hd : Zdigits2 (Z.pos (8388608 * m)) = (Z.pos (digits2_pos m) + 23)%Z).
  { cbv [Zdigits2 Pos.mul digits2_pos]. lia. }
  unfold shr_fexp at 1. rewrite Hd.
  replace (Z.pos (digits2_pos m) + 23 + (-23 + e))%Z
    with (Z.pos (digits2_pos m) + e)%Z by lia.
  rewrite Hc.
  replace (e - (-23 + e))%Z with 23%Z by lia.
  unfold shr, shr_record_of_loc. rewrite iter_shr_1_23.
  cbn [shr_m loc_of_shr_record round_nearest_even].
  unfold shr_fexp. cbn [Zdigits2].
  replace (-23 + e + 23)%Z with e by lia.
  rewrite Hc, Z.sub_diag. cbn [shr shr_record_of_loc shr_m xorb].
  destruct (Z.leb_spec e (emax - prec)); [done | lia].
Qed.

Lemma mul_zero_l (x : float) : finite x = true -> is_zero (mul zero x) = true.
Proof. by destruct x. Qed.

Lemma same_refl (a : float) : same a a.
Proof. by left. Qed.

Lemma same_trans (a b c : float) : same a b -> same b c -> same a c.
Proof.
  intros [-> | [Ha Hb]] [-> | [Hb' Hc]]; try by left.
  - by right.
  - by right.
  - by right.
Qed.

Lemma same_finite (a b : float) : same a b -> finite b = true -> finite a = true.
Proof. intros [-> | [Ha _]]; [done | by destruct a]. Qed.

Lemma same_eqb (a b : float) : same a b -> finite b = true -> eqb a b = true.
Proof.
  intros [-> | [Ha Hb]] Hf.
  - destruct b as [s| | |s m e]; try done.
    unfold eqb, SFeqb, SFcompare.
    destruct s; rewrite Z.compare_refl, Pos.compare_cont_refl; done.
  - by destruct a, b.
Qed.

Lemma add_zero_r (a z : float) :
  finite a = true -> is_zero z = true -> same (add a z) a.
Proof.
  destruct a as [sa| | |sa ma ea], z as [sz| | |]; try done; intros _ _.
  - right. by destruct sa, sz.
  - by left.
Qed.

Lemma add_zero_l (z b : float) :
  finite b = true -> is_zero z = true -> same (add z b) b.
Proof.
  destruct b as [sb| | |sb mb eb], z as [sz| | |]; try done; intros _ _.
  - right. by destruct sb, sz.
  - by left.
Qed.

(** [(1 - t) * a + t * b] at [t = 0] and at [t = 1]. *)
Lemma lerp_zero (a b : float) :
  finite a = true -> finite b = true ->
  same (add (mul (sub one zero) a) (mul zero b)) a.
Proof.
  intros Ha Hb. change (sub one zero) with one.
  rewrite mul_one_l by done. apply add_zero_r; [done | by apply mul_zero_l].
Qed.

Lemma lerp_one (a b : float) :
  finite a = true -> finite b = true ->
  same (add (mul (sub one one) a) (mul one b)) b.
Proof.
  intros Ha Hb. change (sub one one) with zero.
  rewrite (mul_one_l b) by done. apply add_zero_l; [done | by apply mul_zero_l].
Qed.
End FloatFacts.

(** ** The outcome monad and vector accesses *)

Section Accesses.
Context {A : Type}.

Lemma bind_Ok {B : Type} (m : result A) (f : A -> result B) (b : B) :
  (m ≫= f) = Ok b -> exists a, m = Ok a /\ f a = Ok b.
Proof. destruct m; [by eauto | done | done]. Qed.

Lemma rd_lookup (v : list A) (i : nat) (a : A) : v !! i = Some a -> rd v i = Ok a.
Proof. unfold rd. by intros ->. Qed.

Lemma rd_Ok (v : list A) (i : nat) (a : A) : rd v i = Ok a -> v !! i = Some a.
Proof. unfold rd. destruct (v !! i); [by intros [= ->] | done]. Qed.

Lemma wr_lt (v : list A) (i : nat) (a : A) :
  i < length v -> wr v i a = Ok (<[i := a]> v).
Proof. unfold wr. intros Hi. by rewrite decide_True. Qed.

Lemma wr_ge (v : list A) (i : nat) (a : A) :
  length v <= i -> wr v i a = OutOfRange.
Proof. unfold wr. intros Hi. rewrite decide_False; [done | lia]. Qed.

Lemma wr_Ok (v v' : list A) (i : nat) (a : A) :
  wr v i a = Ok v' -> i < length v /\ v' = <[i := a]> v.
Proof. unfold wr. destruct (decide (i < length v)); [by intros [= <-] | done]. Qed.

Lemma lookup_lt (v : list A) (i : nat) : i < length v -> exists a, v !! i = Some a.
Proof. intros Hi. by apply lookup_lt_is_Some_2 in Hi as [a ->]; eauto. Qed.
End Accesses.

Ltac bind_inv H :=
  let a := fresh "r" in
  let H1 := fresh H in
  apply bind_Ok in H as (a & H1 & H).

(** ** The step-based evaluator *)

Section StepEvaluator.
Import F32 BezierCurve.

Local Abbreviation lerp t a b :=
  (Point_add (Point_mul a (sub one t)) (Point_mul b t)).

Lemma blend_Ok (t : float) (temp : list Point) (i : nat) :
  S i < length temp ->
  exists a b, temp !! i = Some a /\ temp !! S i = Some b /\
              blend t temp i = Ok (<[i := lerp t a b]> temp).
Proof.
  intros Hi.
  destruct (lookup_lt temp i) as [a Ha]; [lia |].
  destruct (lookup_lt temp (S i)) as [b Hb]; [lia |].
  exists a, b. repeat split; try done.
  unfold blend. rewrite (rd_lookup _ _ _ Ha), (rd_lookup _ _ _ Hb). cbn.
  apply wr_lt. lia.
Qed.

Lemma blend_row_Ok (t : float) (cnt from : nat) (temp : list Point) :
  from + cnt < length temp ->
  exists temp', blend_row t cnt from temp = Ok temp' /\ length temp' = length temp.
Proof.
  revert from temp. induction cnt as [|cnt IH]; intros from temp Hlen; cbn.
  - by eauto.
  - destruct (blend_Ok t temp from) as (a & b & _ & _ & ->); [lia |]. cbn [mbind result_bind].
    destruct (IH (S from) (<[from := lerp t a b]> temp)) as (temp' & -> & Hl).
    + rewrite length_insert. lia.
    + exists temp'. by rewrite Hl, length_insert.
Qed.

Lemma blend_rows_Ok (t : float) (cnt from : nat) (temp : list Point) :
  0 < from -> 0 < length temp ->
  exists temp', blend_rows t (length temp) cnt from temp = Ok temp' /\
                length temp' = length temp.
Proof.
  revert from temp. induction cnt as [|cnt IH]; intros from temp Hfrom Hlen; cbn.
  - by eauto.
  - destruct (blend_row_Ok t (length temp - from) 0 temp) as (temp1 & -> & Hl1); [lia |].
    cbn. rewrite <- Hl1.
    destruct (IH (S from) temp1) as (temp' & -> & Hl); [lia | lia |].
    exists temp'. split; [done | lia].
Qed.

(** [compute_point] appends exactly one point when there is a control point. *)
Lemma compute_point_Ok (t : float) (control_points curve_points : list Point) :
  0 < length control_points ->
  exists p, compute_point t control_points [] = Ok [p] /\
            compute_point t control_points curve_points = Ok (curve_points ++ [p]).
Proof.
  intros Hlen. unfold compute_point.
  destruct (blend_rows_Ok t (length control_points - 1) 1 control_points)
    as (temp & -> & Hl); [lia | done |].
  cbn. destruct temp as [|p temp]; [cbn in Hl; lia |].
  by exists p.
Qed.

(** The loop visits the parameters of [curve_params], one sample each. *)
Lemma curve_loop_params (control_points : list Point) :
  0 < length control_points ->
  forall (fuel : nat) (t : float) (ts : list float) (curve_points : list Point),
    curve_params fuel t = Some ts ->
    exists c, curve_loop fuel t control_points curve_points = Ok (curve_points ++ c) /\
              Forall2 (fun p t => compute_point t control_points [] = Ok [p]) c ts.
Proof.
  intros Hlen. induction fuel as [|fuel IH]; intros t ts curve_points; [done |].
cbn [curve_params curve_loop].
  destruct (leb t one).
  - destruct (curve_params fuel (add t CURVE_STEP)) as [ts'|] eqn:Hts; [|done].
    cbn. intros [= <-].
    destruct (compute_point_Ok t control_points curve_points Hlen) as (p & Hp & ->).
    cbn. destruct (IH _ _ (curve_points ++ [p]) Hts) as (c & -> & Hc).
    exists (p :: c). split; [by rewrite <- app_assoc | by constructor].
  - intros [= <-]. exists []. split; [by rewrite app_nil_r | constructor].
Qed.

(** The fuel is enough: the loop of [compute_curve] ends after 10000
    parameters, the first of which is 0. *)
Lemma curve_params_fuel :
  exists ts, curve_params curve_fuel zero = Some (zero :: ts) /\
           Z.of_nat (length ts) = 9999%Z.
Proof.
  assert (H : (ts ← curve_params curve_fuel zero; Some (head ts, Z.of_nat (length ts)))
              = Some (Some zero, 10000%Z)) by (vm_compute; reflexivity).
  destruct (curve_params curve_fuel zero) as [[|t ts]|]; cbn in H; try done.
  injection H as -> Hl. exists ts. split; [done | cbn [length] in Hl; lia].
Qed.

Lemma compute_curve_short (control_points : list Point) :
  length control_points < 2 -> compute_curve control_points = Ok [].
Proof. intros Hlen. unfold compute_curve. rewrite decide_False; [done | lia]. Qed.

Lemma compute_curve_Ok (control_points : list Point) :
  2 <= length control_points ->
  exists p c, compute_curve control_points = Ok (p :: c) /\
              compute_point zero control_points [] = Ok [p] /\
              Z.of_nat (length c) = 9999%Z.
Proof.
  intros Hlen. unfold compute_curve. rewrite decide_True by done.
  destruct curve_params_fuel as (ts & Hts & Hl).
  destruct (curve_loop_params control_points ltac:(lia) _ _ _ [] Hts) as (c & -> & Hc).
  cbn. inversion Hc as [|p t c' ts' Hp Hc' E1 E2]; subst.
  exists p, c'. repeat split; [done |].
  apply Forall2_length in Hc'. lia.
Qed.
End StepEvaluator.

(** ** The resolution-based evaluator *)

Section ResolutionEvaluator.
Import F32 Editor.

Local Abbreviation lerp t a b := (add (mul (sub one t) a) (mul t b)).

Lemma flat_blend_Ok (t : float) (temp : list float) (j : nat) :
  j * 2 + 3 < length temp ->
  exists a b c d,
    temp !! (j * 2) = Some a /\ temp !! ((j + 1) * 2) = Some b /\
    temp !! (j * 2 + 1) = Some c /\ temp !! ((j + 1) * 2 + 1) = Some d /\
    blend t temp j = Ok (<[j * 2 + 1 := lerp t c d]> (<[j * 2 := lerp t a b]> temp)).
Proof.
  intros Hj.
  destruct (lookup_lt temp (j * 2)) as [a Ha]; [lia |].
  destruct (lookup_lt temp ((j + 1) * 2)) as [b Hb]; [lia |].
  destruct (lookup_lt temp (j * 2 + 1)) as [c Hc]; [lia |].
  destruct (lookup_lt temp ((j + 1) * 2 + 1)) as [d Hd]; [lia |].
  exists a, b, c, d. repeat split; try done.
  unfold blend. rewrite (rd_lookup _ _ _ Ha), (rd_lookup _ _ _ Hb).
  cbn [mbind result_bind]. rewrite wr_lt by lia. cbn [mbind result_bind].
  rewrite (rd_lookup _ (j * 2 + 1) c), (rd_lookup _ ((j + 1) * 2 + 1) d).
  - cbn [mbind result_bind]. apply wr_lt. rewrite length_insert. lia.
  - rewrite list_lookup_insert_ne by lia. done.
  - rewrite list_lookup_insert_ne by lia. done.
Qed.

Lemma flat_blend_row_Ok (t : float) (cnt from : nat) (temp : list float) :
  (from + cnt) * 2 + 1 < length temp ->
  exists temp', blend_row t cnt from temp = Ok temp' /\ length temp' = length temp.
Proof.
  revert from temp. induction cnt as [|cnt IH]; intros from temp Hlen.
  - by exists temp.
  - cbn [blend_row].
    destruct (flat_blend_Ok t temp from) as (a & b & c & d & _ & _ & _ & _ & ->); [lia |].
    cbn [mbind result_bind].
    edestruct (IH (S from)) as (temp' & -> & Hl).
    + rewrite !length_insert. lia.
    + exists temp'. by rewrite Hl, !length_insert.
Qed.

Lemma flat_blend_rows_Ok (t : float) (n : Z) (cnt from : nat) (temp : list float) :
  0 < from -> (0 <= n)%Z -> (2 * n + 1 < Z.of_nat (length temp))%Z ->
  exists temp', blend_rows t n cnt from temp = Ok temp' /\ length temp' = length temp.
Proof.
  revert from temp. induction cnt as [|cnt IH]; intros from temp Hfrom Hn Hlen.
  - by exists temp.
  - cbn [blend_rows].
    destruct (flat_blend_row_Ok t (Z.to_nat (n - Z.of_nat from + 1)) 0 temp)
      as (temp1 & -> & Hl1); [lia |].
    cbn [mbind result_bind].
    destruct (IH (S from) temp1) as (temp' & -> & Hl); [lia | lia | lia |].
    exists temp'. split; [done | lia].
Qed.

(** The degree computed by [computeBezierCurve], when it fits an [int]. *)
Lemma degree_int (len : nat) :
  (Z.of_nat len / 2 - 1 < 2 ^ 31)%Z -> 2 <= len ->
  int (size_t (Z.of_nat len / 2 - 1)) = (Z.of_nat len / 2 - 1)%Z.
Proof.
  intros Hlt Hlen. unfold int, size_t.
  assert (1 <= Z.of_nat len / 2)%Z by (apply Z.div_le_lower_bound; lia).
  rewrite (Z.mod_small (Z.of_nat len / 2 - 1)) by lia.
  rewrite Z.mod_small by lia. lia.
Qed.

Lemma degree_short (len : nat) :
  len / 2 < 2 -> (int (size_t (Z.of_nat len / 2 - 1)) <? 1)%Z = true.
Proof.
  intros Hlen. change 2%Z with (Z.of_nat 2). rewrite <- Nat2Z.inj_div.
  assert (len / 2 = 0 \/ len / 2 = 1) as [-> | ->] by lia; reflexivity.
Qed.

Lemma sample_Ok (resolution : Z) (points : list float) (n : Z) (curve : list float) (i : Z) :
  (1 <= n)%Z -> (2 * n + 1 < Z.of_nat (length points))%Z ->
  exists temp x y,
    blend_rows (div (of_Z i) (of_Z resolution)) n (Z.to_nat n) 1 points = Ok temp /\
    temp !! 0 = Some x /\ temp !! 1 = Some y /\
    sample resolution points n curve i = Ok (curve ++ [x; y]).
Proof.
  intros Hn Hlen. unfold sample.
  destruct (flat_blend_rows_Ok (div (of_Z i) (of_Z resolution)) n (Z.to_nat n) 1 points)
    as (temp & Htemp & Hl); [lia | lia | lia |].
  destruct (lookup_lt temp 0) as [x Hx]; [lia |].
  destruct (lookup_lt temp 1) as [y Hy]; [lia |].
  exists temp, x, y. rewrite Htemp. cbn [mbind result_bind].
  by rewrite (rd_lookup _ _ _ Hx), (rd_lookup _ _ _ Hy).
Qed.

Lemma sample_loop_Ok (resolution : Z) (points : list float) (n : Z) (cnt : nat) (from : Z)
    (curve : list float) :
  (1 <= n)%Z -> (2 * n + 1 < Z.of_nat (length points))%Z ->
  exists c, sample_loop resolution points n cnt from curve = Ok (curve ++ c) /\
            length c = 2 * cnt.
Proof.
  intros Hn Hlen. revert from curve.
  induction cnt as [|cnt IH]; intros from curve.
  - exists []. by rewrite app_nil_r.
  - cbn [sample_loop].
    destruct (sample_Ok resolution points n curve from Hn Hlen) as (_ & x & y & _ & _ & _ & ->).
    cbn [mbind result_bind].
    destruct (IH (from + 1)%Z (curve ++ [x; y])) as (c & -> & Hc).
    exists (x :: y :: c). split; [by rewrite <- app_assoc | cbn [length]; lia].
Qed.

Lemma computeBezierCurve_short (resolution : Z) (points : list float) :
  length points / 2 < 2 -> computeBezierCurve_at resolution points = Ok [].
Proof. intros Hlen. unfold computeBezierCurve_at. by rewrite degree_short. Qed.

Lemma computeBezierCurve_Ok (resolution : Z) (points : list float) :
  2 <= length points / 2 -> (Z.of_nat (length points) < 2 ^ 31)%Z ->
  exists curve, computeBezierCurve_at resolution points = Ok curve /\
                length curve = 2 * Z.to_nat (resolution + 1).
Proof.
  intros Hlen Hint. unfold computeBezierCurve_at.
  rewrite degree_int by lia.
  destruct (Z.ltb_spec (Z.of_nat (length points) / 2 - 1) 1); [lia |].
  destruct (sample_loop_Ok resolution points (Z.of_nat (length points) / 2 - 1)
              (Z.to_nat (resolution + 1)) 0 []) as (c & -> & Hc); [lia | lia |].
  by exists c.
Qed.
End ResolutionEvaluator.

(** ** Evaluation of short and of proper control-point lists *)

Section Evaluation.
Import F32.

(** C3: with 0 or 1 control points the evaluation returns the empty
    sequence, and it returns it normally (no out-of-range access, no
    unfinished loop): in the step-based editor for a list of fewer than 2
    points, in the resolution-based editor for a buffer holding fewer than
    2 coordinate pairs. *)
Theorem evaluate_short_is_empty
    (control_points : list BezierCurve.Point) (points : list float) :
  length control_points < 2 ->
  length points / 2 < 2 ->
  BezierCurve.compute_curve control_points = Ok [] /\
  Editor.computeBezierCurve points = Ok [].
Proof.
  intros Hcp Hp. split.
  - by apply compute_curve_short.
  - by apply computeBezierCurve_short.
Qed.

Lemma evaluate_short_is_empty_witness :
  length [BezierCurve.mkPoint one two] < 2 /\
  length [one; two] / 2 < 2 /\
  BezierCurve.compute_curve [BezierCurve.mkPoint one two] = Ok [] /\
  Editor.computeBezierCurve [one; two] = Ok [].
Proof.
  split; [cbn; lia |]. split; [cbn; lia |].
  apply (evaluate_short_is_empty [BezierCurve.mkPoint one two] [one; two]); cbn; lia.
Defined.

(** C4, on the step-based editor: with the two control points (0,0) and
    (100,0) and the step 0.0001f, whose inverse rounded down is 10000,
    [compute_curve] returns 10000 samples, one fewer than the
    floor(1/s) + 1 = 10001 of the claim. The loop [t <= 1.0f] is written
    to reach t = 1, but the float [t] accumulates the rounding of each
    addition: the loop visits exactly 10000 parameters, the last of which
    is below 1.0f, and the next addition is already above it. *)
Theorem step_sample_count_misses_one :
  let control_points :=
    [BezierCurve.mkPoint zero zero; BezierCurve.mkPoint (of_Z 100) zero] in
  2 <= length control_points /\
  (curve ← BezierCurve.compute_curve control_points; Ok (Z.of_nat (length curve)))
    = Ok 10000%Z /\
  (floor_inv BezierCurve.CURVE_STEP + 1 = 10001)%Z /\
  (exists ts t,
      BezierCurve.curve_params BezierCurve.curve_fuel zero = Some ts /\
      Z.of_nat (length ts) = 10000%Z /\
      last ts = Some t /\
      ltb t one = true /\
      leb (add t BezierCurve.CURVE_STEP) one = false).
Proof.
  split; [cbn; lia |]. split; [vm_compute; reflexivity |].
  split; [vm_compute; reflexivity |].
  assert (H :
    (ts ← BezierCurve.curve_params BezierCurve.curve_fuel zero;
     Some (Z.of_nat (length ts),
           (fun t => (ltb t one, leb (add t BezierCurve.CURVE_STEP) one)) <$> last ts))
    = Some (10000%Z, Some (true, false))) by (vm_compute; reflexivity).
  destruct (BezierCurve.curve_params BezierCurve.curve_fuel zero) as [ts |];
    [| discriminate H].
  cbn [mbind option_bind] in H. injection H as Hl Ht.
  destruct (last ts) as [t |] eqn:Hlast; [| discriminate Ht].
  cbn [fmap option_fmap option_map] in Ht. injection Ht as Hlt Hle.
  exists ts, t. repeat split; assumption.
Qed.

(** X16: the sample counts for N >= 2 control points at the configured
    constants: the resolution-based evaluation (in a buffer of fewer than
    2^31 coordinates, so that the [int] degree does not wrap) returns
    101 samples, that is 202 coordinates; the step-based evaluation returns
    10000 samples, whatever the control points. *)
Theorem configured_sample_counts
    (points : list float) (control_points : list BezierCurve.Point) :
  2 <= length points / 2 ->
  (Z.of_nat (length points) < 2 ^ 31)%Z ->
  2 <= length control_points ->
  (exists curve, Editor.computeBezierCurve points = Ok curve /\
                 length curve = 202) /\
  (exists curve, BezierCurve.compute_curve control_points = Ok curve /\
                 Z.of_nat (length curve) = 10000%Z).
Proof.
  intros Hp Hint Hcp. split.
  - destruct (computeBezierCurve_Ok Editor.CURVE_RESOLUTION points Hp Hint)
      as (curve & Hc & Hl).
    exists curve. split; [exact Hc |].
    change Editor.CURVE_RESOLUTION with 100%Z in Hl. lia.
  - destruct (compute_curve_Ok control_points Hcp) as (p & c & Hc & _ & Hl).
    exists (p :: c). split; [done | cbn [length]; lia].
Qed.

Lemma configured_sample_counts_witness :
  2 <= length Editor.initial_points / 2 /\
  (Z.of_nat (length Editor.initial_points) < 2 ^ 31)%Z /\
  2 <= length [BezierCurve.mkPoint zero zero; BezierCurve.mkPoint one one] /\
  (exists curve, Editor.computeBezierCurve Editor.initial_points = Ok curve /\
                 length curve = 202) /\
  (exists curve,
      BezierCurve.compute_curve [BezierCurve.mkPoint zero zero; BezierCurve.mkPoint one one]
        = Ok curve /\
      Z.of_nat (length curve) = 10000%Z).
Proof.
  split; [vm_compute; lia |].
  split; [vm_compute; reflexivity |]. split; [vm_compute; lia |].
  apply (configured_sample_counts Editor.initial_points
           [BezierCurve.mkPoint zero zero; BezierCurve.mkPoint one one]).
  - vm_compute; lia.
  - vm_compute; reflexivity.
  - vm_compute; lia.
Defined.

(** Two evaluations by hand: the quadratic curve on (0,0), (5,10), (10,0)
    passes through (5,5) at t = 0.5, and the segment from (0,0) to (10,0)
    sampled at resolution 10 has abscissa 3 at its fourth sample. *)
Example quadratic_midpoint :
  BezierCurve.compute_point (lit 1 2)
    [BezierCurve.mkPoint zero zero; BezierCurve.mkPoint (of_Z 5) (of_Z 10);
     BezierCurve.mkPoint (of_Z 10) zero] []
  = Ok [BezierCurve.mkPoint (of_Z 5) (of_Z 5)].
Proof. vm_compute. reflexivity. Qed.

Example linear_fourth_sample :
  (curve ← Editor.computeBezierCurve_at 10 [zero; zero; of_Z 10; zero];
   Ok (length curve, (λ x, eqb x (of_Z 3)) <$> curve !! 6, curve !! 7))
  = Ok (22, Some true, Some zero).
Proof. vm_compute. reflexivity. Qed.
End Evaluation.

(** ** The curve sample follows the control points *)

Section CurveInvariant.

Lemma compute_curve_total (control_points : list BezierCurve.Point) :
  exists curve, BezierCurve.compute_curve control_points = Ok curve.
Proof.
  destruct (decide (2 <= length control_points)) as [H | H].
  - destruct (compute_curve_Ok control_points H) as (p & c & -> & _). by eauto.
  - exists []. apply compute_curve_short. lia.
Qed.

Lemma computeBezierCurve_total (points : list F32.float) :
  (Z.of_nat (length points) < 2 ^ 31)%Z ->
  exists curve, Editor.computeBezierCurve points = Ok curve.
Proof.
  intros Hint. unfold Editor.computeBezierCurve.
  destruct (decide (2 <= length points / 2)) as [H | H].
  - destruct (computeBezierCurve_Ok Editor.CURVE_RESOLUTION points H Hint) as (c & -> & _).
    by eauto.
  - exists []. apply computeBezierCurve_short. lia.
Qed.



Lemma updateBuffers_invariant (st st' : Editor.state) :
  Editor.updateBuffers st = Ok st' ->
  Editor.computeBezierCurve (Editor.controlPoints st') = Ok (Editor.curvePoints st').
Proof. unfold Editor.updateBuffers. intros H. bind_inv H. by simplify_eq. Qed.

Lemma event_curve_invariant (e : Editor.event) (st st' : Editor.state) :
  Editor.step e st = Ok st' ->
  Editor.computeBezierCurve (Editor.controlPoints st) = Ok (Editor.curvePoints st) ->
  Editor.computeBezierCurve (Editor.controlPoints st') = Ok (Editor.curvePoints st').
Proof.
  intros Hstep Hinv. destruct e; cbn [Editor.step] in Hstep.
  - unfold Editor.mouse_button_callback in Hstep.
    repeat case_match; try bind_inv Hstep; repeat case_match;
      first [by simplify_eq | by eapply updateBuffers_invariant].
  - unfold Editor.cursor_position_callback in Hstep.
    repeat case_match; repeat bind_inv Hstep;
      first [by simplify_eq | by eapply updateBuffers_invariant].
Qed.

Lemma reachable_editor_invariant (st : Editor.state) :
  Editor.reachable st ->
  Editor.computeBezierCurve (Editor.controlPoints st) = Ok (Editor.curvePoints st).
Proof.
  induction 1 as [st Hinit | e st st' _ IH Hstep].
  - by eapply updateBuffers_invariant.
  - by apply (event_curve_invariant e st st').
Qed.

End CurveInvariant.

(** ** Releases, moves and deletions *)

Section Interaction.
Import F32.

(** C10: in the resolution-based editor a release of any mouse button, at
    any cursor position and in any state, ends the drag: the handler
    returns the state with [dragging] false and [draggedIndex] -1, and with
    the control points and the curve as they were (nothing is committed);
    a cursor move that follows changes nothing any more. *)
Theorem release_ends_drag
    (button : Z) (xpos ypos xpos' ypos' : F64.double) (st : Editor.state) :
  let released :=
    Editor.mkState (Editor.controlPoints st) (Editor.curvePoints st) false (-1) in
  Editor.mouse_button_callback button GLFW_RELEASE xpos ypos st = Ok released /\
  Editor.cursor_position_callback xpos' ypos' released = Ok released.
Proof. split; reflexivity. Qed.

(** C9, on the step-based editor: a point is added at (100,100), the
    primary button is pressed on it and the cursor moves to (300,300) with
    the button held. The drag is active, yet the tracked candidate
    [moving_points] still holds only the press position, which is also the
    position [draw_controls] gives the dragged point: the move handler
    forwards to [handle_mouse_press], whose first branch is closed by
    [!is_moving]. *)
Theorem move_during_drag_is_ignored :
  (st1 ← BezierCurve.mouse_button_callback GLFW_MOUSE_BUTTON_LEFT GLFW_RELEASE
           (of_Z 100) (of_Z 100) BezierCurve.init;
   st2 ← BezierCurve.mouse_button_callback GLFW_MOUSE_BUTTON_LEFT GLFW_PRESS
           (of_Z 100) (of_Z 100) st1;
   st3 ← BezierCurve.cursor_pos_callback true (of_Z 300) (of_Z 300) st2;
   Ok (BezierCurve.is_moving st3, BezierCurve.moving_points st3,
       BezierCurve.drawn_point st3 0))
  = Ok (true, [BezierCurve.mkPoint (of_Z 100) (of_Z 100)],
        Some (BezierCurve.mkPoint (of_Z 100) (of_Z 100))).
Proof. vm_compute. reflexivity. Qed.

(** C2, on the step-based editor: points are added at (100,100) and
    (200,200), the primary button is pressed on the second one, the
    secondary button is pressed on it while the drag is active (the point
    is erased, the drag state stays), and the primary button is released:
    the release writes through [move_iter], which is now [end()]. *)
Theorem release_after_delete_out_of_range :
  (st1 ← BezierCurve.mouse_button_callback GLFW_MOUSE_BUTTON_LEFT GLFW_RELEASE
           (of_Z 100) (of_Z 100) BezierCurve.init;
   st2 ← BezierCurve.mouse_button_callback GLFW_MOUSE_BUTTON_LEFT GLFW_RELEASE
           (of_Z 200) (of_Z 200) st1;
   st3 ← BezierCurve.mouse_button_callback GLFW_MOUSE_BUTTON_LEFT GLFW_PRESS
           (of_Z 200) (of_Z 200) st2;
   st4 ← BezierCurve.mouse_button_callback GLFW_MOUSE_BUTTON_RIGHT GLFW_PRESS
           (of_Z 200) (of_Z 200) st3;
   Ok (BezierCurve.is_moving st4, BezierCurve.move_iter st4,
       length (BezierCurve.control_points st4),
       BezierCurve.mouse_button_callback GLFW_MOUSE_BUTTON_LEFT GLFW_RELEASE
         (of_Z 200) (of_Z 200) st4))
  = Ok (true, 1, 1, OutOfRange).
Proof. vm_compute. reflexivity. Qed.

(** The resolution-based editor keeps the stale index too: after the last
    of the four initial points is grabbed and deleted, the next cursor move
    writes past the end of the buffer (a release first would reset the
    index). *)
Example move_after_delete_out_of_range :
  (st0 ← Editor.init;
   st1 ← Editor.mouse_button_callback GLFW_MOUSE_BUTTON_LEFT GLFW_PRESS
           (F64.of_Z 720) (F64.of_Z 60) st0;
   st2 ← Editor.mouse_button_callback GLFW_MOUSE_BUTTON_RIGHT GLFW_PRESS
           (F64.of_Z 720) (F64.of_Z 60) st1;
   Ok (Editor.dragging st2, Editor.draggedIndex st2, length (Editor.controlPoints st2),
       Editor.cursor_position_callback (F64.of_Z 720) (F64.of_Z 60) st2))
  = Ok (true, 3%Z, 6, OutOfRange).
Proof. vm_compute. reflexivity. Qed.

(** C7, as the claim states it, fails for the step-based editor: with the
    two points (100,100) and (200,200), a secondary press on the second
    one removes it and leaves a single point. *)
Lemma delete_below_two_counterexample :
  (st1 ← BezierCurve.mouse_button_callback GLFW_MOUSE_BUTTON_LEFT GLFW_RELEASE
           (of_Z 100) (of_Z 100) BezierCurve.init;
   st2 ← BezierCurve.mouse_button_callback GLFW_MOUSE_BUTTON_LEFT GLFW_RELEASE
           (of_Z 200) (of_Z 200) st1;
   st3 ← BezierCurve.mouse_button_callback GLFW_MOUSE_BUTTON_RIGHT GLFW_PRESS
           (of_Z 200) (of_Z 200) st2;
   Ok (BezierCurve.control_points st2, BezierCurve.control_points st3))
  = Ok ([BezierCurve.mkPoint (of_Z 100) (of_Z 100);
         BezierCurve.mkPoint (of_Z 200) (of_Z 200)],
        [BezierCurve.mkPoint (of_Z 100) (of_Z 100)]).
Proof. vm_compute. reflexivity. Qed.


Lemma wr_int_lt {A : Type} (v : list A) (i : nat) (a : A) :
  i < length v -> wr_int v (Z.of_nat i) a = Ok (<[i := a]> v).
Proof.
  intros Hi. unfold wr_int.
  destruct (Z.ltb_spec (Z.of_nat i) 0); [lia |].
  rewrite Nat2Z.id. by apply wr_lt.
Qed.

Lemma length_erase_le {A : Type} (v : list A) (i n : nat) :
  length (erase v i n) <= length v.
Proof. unfold erase. rewrite length_app, length_take, length_drop. lia. Qed.

Lemma updateBuffers_Ok (st : Editor.state) :
  (Z.of_nat (length (Editor.controlPoints st)) < 2 ^ 31)%Z ->
  exists curve,
    Editor.updateBuffers st
    = Ok (Editor.mkState (Editor.controlPoints st) curve
                         (Editor.dragging st) (Editor.draggedIndex st)).
Proof.
  intros Hint. unfold Editor.updateBuffers.
  destruct (computeBezierCurve_total _ Hint) as [curve ->]. by exists curve.
Qed.

(** C7, amended: a secondary press that hits the point of index [i] in the
    resolution-based editor removes exactly the two coordinates of that
    point, the others keeping their order, when more than 2 points are
    held, and leaves the state as it is when 2 points or fewer are held;
    in the step-based editor a secondary press that hits the point at
    offset [it] removes that point whatever the number of points. *)
Theorem delete_point
    (st : Editor.state) (xpos ypos : F64.double) (i : nat)
    (a : BezierCurve.state) (x y : float) (it : nat) :
  Editor.findPointUnderCursor (Editor.controlPoints st)
    (Editor.screenToGLCoords xpos ypos).1 (Editor.screenToGLCoords xpos ypos).2
    Editor.default_threshold = Ok (Z.of_nat i) ->
  (Z.of_nat (length (Editor.controlPoints st)) < 2 ^ 31)%Z ->
  BezierCurve.find_close (BezierCurve.mkPoint x y) 0 (BezierCurve.control_points a) = Some it ->
  ((4 < length (Editor.controlPoints st) ->
    exists curve,
      Editor.mouse_button_callback GLFW_MOUSE_BUTTON_RIGHT GLFW_PRESS xpos ypos st
      = Ok (Editor.mkState
              (take (i * 2) (Editor.controlPoints st)
               ++ drop (i * 2 + 2) (Editor.controlPoints st))
              curve (Editor.dragging st) (Editor.draggedIndex st))) /\
   (length (Editor.controlPoints st) <= 4 ->
    Editor.mouse_button_callback GLFW_MOUSE_BUTTON_RIGHT GLFW_PRESS xpos ypos st = Ok st)) /\
  (exists curve,
     BezierCurve.handle_mouse_press x y GLFW_MOUSE_BUTTON_RIGHT a
     = Ok (BezierCurve.mkState
             (take it (BezierCurve.control_points a)
              ++ drop (it + 1) (BezierCurve.control_points a))
             curve (BezierCurve.moving_points a) (BezierCurve.move_iter a)
             (BezierCurve.is_moving a) (BezierCurve.is_deleting a))).
Proof.
  intros Hfind Hint Hclose. split.
  - assert (Hne : bool_decide (Editor.controlPoints st = []) = false).
    { apply bool_decide_eq_false. intros Hnil. rewrite Hnil in Hfind.
      change (Ok (-1)%Z = Ok (Z.of_nat i)) in Hfind. injection Hfind as Hfind. lia. }
    assert (Hcb : Editor.mouse_button_callback GLFW_MOUSE_BUTTON_RIGHT GLFW_PRESS xpos ypos st
                  = if decide (4 < length (Editor.controlPoints st))
                    then Editor.updateBuffers
                           (Editor.mkState (erase (Editor.controlPoints st) (i * 2) 2)
                              (Editor.curvePoints st) (Editor.dragging st)
                              (Editor.draggedIndex st))
                    else Ok st).
    { unfold Editor.mouse_button_callback.
      destruct (Editor.screenToGLCoords xpos ypos) as [mx my]. cbn [fst snd] in Hfind.
      change (GLFW_PRESS =? GLFW_PRESS)%Z with true.
      change (GLFW_MOUSE_BUTTON_RIGHT =? GLFW_MOUSE_BUTTON_LEFT)%Z with false.
      change (GLFW_MOUSE_BUTTON_RIGHT =? GLFW_MOUSE_BUTTON_RIGHT)%Z with true.
      cbn match. rewrite Hne. cbn [negb andb]. rewrite Hfind. cbn [mbind result_bind].
      destruct (Z.eqb_spec (Z.of_nat i) (-1)); [lia |]. cbn [negb].
      by rewrite Nat2Z.id. }
    rewrite Hcb. split; intros Hlen.
    + rewrite decide_True by done.
      edestruct updateBuffers_Ok as [curve ->]; [| by exists curve].
      cbn [Editor.controlPoints].
      pose proof (length_erase_le (Editor.controlPoints st) (i * 2) 2). lia.
    + rewrite decide_False by lia. done.
  - unfold BezierCurve.handle_mouse_press.
    change (GLFW_MOUSE_BUTTON_RIGHT =? GLFW_MOUSE_BUTTON_LEFT)%Z with false.
    change (GLFW_MOUSE_BUTTON_RIGHT =? GLFW_MOUSE_BUTTON_RIGHT)%Z with true.
    cbn [andb]. rewrite Hclose.
    destruct (compute_curve_total (erase (BezierCurve.control_points a) it 1)) as [curve ->].
    by exists curve.
Qed.

Lemma delete_point_witness :
  exists (curve : list float) (curve' : list BezierCurve.Point),
    Editor.mouse_button_callback GLFW_MOUSE_BUTTON_RIGHT GLFW_PRESS
      (F64.of_Z 80) (F64.of_Z 540) (Editor.mkState Editor.initial_points [] false (-1))
    = Ok (Editor.mkState (drop 2 Editor.initial_points) curve false (-1)) /\
    BezierCurve.handle_mouse_press (of_Z 200) (of_Z 200) GLFW_MOUSE_BUTTON_RIGHT
      (BezierCurve.mkState
         [BezierCurve.mkPoint (of_Z 100) (of_Z 100); BezierCurve.mkPoint (of_Z 200) (of_Z 200)]
         [] [] 0 false false)
    = Ok (BezierCurve.mkState [BezierCurve.mkPoint (of_Z 100) (of_Z 100)] curve'
            [] 0 false false).
Proof.
  destruct (delete_point
              (Editor.mkState Editor.initial_points [] false (-1)) (F64.of_Z 80) (F64.of_Z 540) 0
              (BezierCurve.mkState
                 [BezierCurve.mkPoint (of_Z 100) (of_Z 100);
                  BezierCurve.mkPoint (of_Z 200) (of_Z 200)]
                 [] [] 0 false false)
              (of_Z 200) (of_Z 200) 1)
    as [[Hdel _] [curve' Ha]].
  - vm_compute; reflexivity.
  - vm_compute; reflexivity.
  - vm_compute; reflexivity.
  - destruct Hdel as [curve Hb]; [vm_compute; lia |].
    exists curve, curve'. split; [exact Hb | exact Ha].
Defined.


End Interaction.

(** ** Hit-testing *)

Section HitTest.
Import F32.

Lemma getPointDistance_Ok (controlPoints : list float) (i : nat) (x y : float) :
  i * 2 + 1 < length controlPoints ->
  exists d, Editor.getPointDistance controlPoints i x y = Ok d.
Proof.
  intros Hi. unfold Editor.getPointDistance.
  destruct (lookup_lt controlPoints (i * 2)) as [a Ha]; [lia |].
  destruct (lookup_lt controlPoints (i * 2 + 1)) as [b Hb]; [lia |].
  rewrite (rd_lookup _ _ _ Ha), (rd_lookup _ _ _ Hb). by eauto.
Qed.

Lemma find_loop_first (controlPoints : list float) (x y threshold : float) (cnt from : nat) :
  (from + cnt) * 2 <= length controlPoints ->
  exists r,
    Editor.find_loop controlPoints x y threshold cnt from = Ok r /\
    ((r = (-1)%Z /\
      forall i d, from <= i < from + cnt ->
        Editor.getPointDistance controlPoints i x y = Ok d ->
        ltb d (mul threshold threshold) = false) \/
     (exists i d,
        r = Z.of_nat i /\ from <= i < from + cnt /\
        Editor.getPointDistance controlPoints i x y = Ok d /\
        ltb d (mul threshold threshold) = true /\
        forall j d', from <= j < i ->
          Editor.getPointDistance controlPoints j x y = Ok d' ->
          ltb d' (mul threshold threshold) = false)).
Proof.
  revert from. induction cnt as [|cnt IH]; intros from Hlen.
  - exists (-1)%Z. split; [done |]. left. split; [done |]. intros i d Hi. lia.
  - cbn [Editor.find_loop].
    destruct (getPointDistance_Ok controlPoints from x y) as [d Hd]; [lia |].
    rewrite Hd. cbn [mbind result_bind].
    destruct (ltb d (mul threshold threshold)) eqn:Hlt.
    + exists (Z.of_nat from). split; [done |]. right.
      exists from, d. repeat split; try done; try lia; intros; lia.
    + destruct (IH (S from)) as (r & -> & Hr); [lia |].
      exists r. split; [done |].
      destruct Hr as [[-> Hnone] | (i & di & -> & Hi & Hdi & Hlti & Hbefore)].
      * left. split; [done |]. intros i d' Hi Hd'.
        destruct (decide (i = from)) as [-> | Hne].
        -- rewrite Hd in Hd'. by simplify_eq.
        -- apply (Hnone i d'); [lia | done].
      * right. exists i, di. split; [done |]. split; [lia |].
        split; [done |]. split; [done |].
        intros j d' Hj Hd'.
        destruct (decide (j = from)) as [-> | Hne].
        -- rewrite Hd in Hd'. by simplify_eq.
        -- apply (Hbefore j d'); [lia | done].
Qed.

Lemma find_close_first (q : BezierCurve.Point) (from : nat) (l : list BezierCurve.Point) :
  match BezierCurve.find_close q from l with
  | Some it =>
      exists i p, it = from + i /\ l !! i = Some p /\ BezierCurve.is_close p q = true /\
                  forall j p', j < i -> l !! j = Some p' -> BezierCurve.is_close p' q = false
  | None => forall j p', l !! j = Some p' -> BezierCurve.is_close p' q = false
  end.
Proof.
  revert from. induction l as [|p l IH]; intros from; cbn [BezierCurve.find_close].
  - intros j p'. by rewrite lookup_nil.
  - destruct (BezierCurve.is_close p q) eqn:Hc.
    + exists 0, p. split; [lia |]. split; [done |]. split; [done |].
      intros j p' Hj. lia.
    + specialize (IH (S from)). destruct (BezierCurve.find_close q (S from) l) as [it|].
      * destruct IH as (i & p1 & -> & Hl & Hc1 & Hbefore).
        exists (S i), p1. split; [lia |]. split; [done |]. split; [done |].
        intros [|j] p' Hj Hp'; cbn in Hp'; [by simplify_eq |].
        apply (Hbefore j p'); [lia | done].
      * intros [|j] p' Hp'; cbn in Hp'; [by simplify_eq |]. by apply (IH j p').
Qed.

(** C6, as the claim states it, fails for the step-based editor at the
    boundary: for the control point (0,0) and the query (10,0) the squared
    distance the code computes, 100, is not below the squared threshold,
    100, and yet the hit-test returns the point, because [is_close]
    compares the distance with [<=]. *)
Lemma hit_at_threshold_counterexample :
  let p := BezierCurve.mkPoint zero zero in
  let q := BezierCurve.mkPoint (of_Z 10) zero in
  SFltb (F64.add (F64.pow2 (sub (BezierCurve.p_x p) (BezierCurve.p_x q)))
                 (F64.pow2 (sub (BezierCurve.p_y p) (BezierCurve.p_y q))))
        (F64.mul (F64.of_float BezierCurve.POINT_THRESHOLD)
                 (F64.of_float BezierCurve.POINT_THRESHOLD)) = false /\
  BezierCurve.find_close q 0 [p] = Some 0.
Proof. split; vm_compute; reflexivity. Qed.

(** C6, amended: in the resolution-based editor [findPointUnderCursor]
    returns the lowest index whose squared distance to the query is below
    the squared threshold, and -1 when no index qualifies; in the
    step-based editor the search of the press handler returns the first
    point for which [is_close] holds, that is whose distance to the query
    is at most the threshold (the boundary included), and none when there
    is no such point. In both, the first match in list order wins. *)
Theorem hit_test_first_match
    (controlPoints : list float) (x y threshold : float)
    (control_points : list BezierCurve.Point) (q : BezierCurve.Point) :
  (exists r,
     Editor.findPointUnderCursor controlPoints x y threshold = Ok r /\
     ((r = (-1)%Z /\
       forall i d, i < length controlPoints / 2 ->
         Editor.getPointDistance controlPoints i x y = Ok d ->
         ltb d (mul threshold threshold) = false) \/
      (exists i d,
         r = Z.of_nat i /\ i < length controlPoints / 2 /\
         Editor.getPointDistance controlPoints i x y = Ok d /\
         ltb d (mul threshold threshold) = true /\
         forall j d', j < i ->
           Editor.getPointDistance controlPoints j x y = Ok d' ->
           ltb d' (mul threshold threshold) = false))) /\
  match BezierCurve.find_close q 0 control_points with
  | Some it =>
      exists p, control_points !! it = Some p /\ BezierCurve.is_close p q = true /\
                forall j p', j < it -> control_points !! j = Some p' ->
                             BezierCurve.is_close p' q = false
  | None =>
      forall j p', control_points !! j = Some p' -> BezierCurve.is_close p' q = false
  end.
Proof.
  split.
  - unfold Editor.findPointUnderCursor.
    destruct (find_loop_first controlPoints x y threshold (length controlPoints / 2) 0)
      as (r & Hr & Hspec); [lia |].
    exists r. split; [done |].
    destruct Hspec as [[-> Hnone] | (i & d & -> & Hi & Hd & Hlt & Hbefore)].
    + left. split; [done |]. intros i d Hi. apply Hnone. lia.
    + right. exists i, d. split; [done |]. split; [lia |].
      split; [done |]. split; [done |].
      intros j d' Hj. apply Hbefore. lia.
  - pose proof (find_close_first q 0 control_points) as H.
    destruct (BezierCurve.find_close q 0 control_points) as [it|]; [|done].
    destruct H as (i & p & -> & Hl & Hc & Hbefore). by exists p.
Qed.

(** The first match is not the nearest one: the first point lies at
    distance 0.02 of the query and the second one on it. *)
Example first_match_not_nearest :
  Editor.findPointUnderCursor [lit 2 100; zero; zero; zero] zero zero Editor.default_threshold
  = Ok 0%Z.
Proof. vm_compute. reflexivity. Qed.
End HitTest.

(** ** Endpoints of the sampled curve *)

Section StepEndpoint.
Import F32 BezierCurve.

Lemma Point_same_finite (p q : Point) : Point_same p q -> Point_finite q -> Point_finite p.
Proof. intros [Hx Hy] [Fx Fy]. split; by eapply same_finite. Qed.

Lemma Point_same_trans (p q r : Point) : Point_same p q -> Point_same q r -> Point_same p r.
Proof. intros [Hx Hy] [Hx' Hy']. split; by eapply same_trans. Qed.

Lemma Point_same_eqb (p q : Point) : Point_same p q -> Point_finite q -> Point_eqb p q = true.
Proof.
  intros [Hx Hy] [Fx Fy]. unfold Point_eqb.
  by rewrite (same_eqb _ _ Hx Fx), (same_eqb _ _ Hy Fy).
Qed.

Lemma Point_lerp_zero (a b : Point) :
  Point_finite a -> Point_finite b ->
  Point_same (Point_add (Point_mul a (sub one zero)) (Point_mul b zero)) a.
Proof. intros [Ax Ay] [Bx By]. split; cbn; by apply lerp_zero. Qed.

Lemma blend_at_zero (temp orig : list Point) (i : nat) :
  Forall Point_finite orig -> Forall2 Point_same temp orig -> S i < length temp ->
  exists temp', blend zero temp i = Ok temp' /\ Forall2 Point_same temp' orig.
Proof.
  intros Hfin Hsame Hi.
  destruct (blend_Ok zero temp i Hi) as (a & b & Ha & Hb & ->).
  destruct (Forall2_lookup_l _ _ _ _ _ Hsame Ha) as (oa & Hoa & Sa).
  destruct (Forall2_lookup_l _ _ _ _ _ Hsame Hb) as (ob & Hob & Sb).
  pose proof (Forall_lookup_1 _ _ _ _ Hfin Hoa) as Foa.
  pose proof (Forall_lookup_1 _ _ _ _ Hfin Hob) as Fob.
  eexists. split; [done |].
  rewrite <- (list_insert_id orig i oa) by done.
  apply Forall2_insert; [done |].
  eapply Point_same_trans; [| exact Sa].
  apply Point_lerp_zero; by eapply Point_same_finite.
Qed.

Lemma blend_row_at_zero (cnt from : nat) (temp orig : list Point) :
  Forall Point_finite orig -> Forall2 Point_same temp orig -> from + cnt < length temp ->
  exists temp', blend_row zero cnt from temp = Ok temp' /\ Forall2 Point_same temp' orig.
Proof.
  intros Hfin. revert from temp.
  induction cnt as [|cnt IH]; intros from temp Hsame Hlen.
  - by exists temp.
  - cbn [blend_row].
    destruct (blend_at_zero temp orig from Hfin Hsame) as (temp1 & -> & Hsame1); [lia |].
    cbn [mbind result_bind]. apply IH; [done |].
    rewrite (Forall2_length _ _ _ Hsame1), <- (Forall2_length _ _ _ Hsame). lia.
Qed.

Lemma blend_rows_at_zero (cnt from : nat) (temp orig : list Point) :
  Forall Point_finite orig -> Forall2 Point_same temp orig -> 0 < from -> 0 < length temp ->
  exists temp', blend_rows zero (length orig) cnt from temp = Ok temp' /\
                Forall2 Point_same temp' orig.
Proof.
  intros Hfin. revert from temp.
  induction cnt as [|cnt IH]; intros from temp Hsame Hfrom Hlen.
  - by exists temp.
  - cbn [blend_rows]. pose proof (Forall2_length _ _ _ Hsame) as Hl.
    destruct (blend_row_at_zero (length orig - from) 0 temp orig Hfin Hsame)
      as (temp1 & -> & Hsame1); [lia |].
    cbn [mbind result_bind]. apply IH; [done | lia |].
    rewrite (Forall2_length _ _ _ Hsame1). lia.
Qed.

Lemma Forall2_Point_same_refl (l : list Point) : Forall2 Point_same l l.
Proof. induction l; constructor; [split; apply same_refl | done]. Qed.

(** The sample at [t = 0] is the first control point. *)
Lemma compute_point_at_zero (p0 : Point) (rest : list Point) (p : Point) :
  Forall Point_finite (p0 :: rest) ->
  compute_point zero (p0 :: rest) [] = Ok [p] ->
  Point_same p p0.
Proof.
  intros Hfin Hp. unfold compute_point in Hp.
  destruct (blend_rows_at_zero (length (p0 :: rest) - 1) 1 (p0 :: rest) (p0 :: rest))
    as (temp & Htemp & Hsame);
    [done | apply Forall2_Point_same_refl | lia | cbn; lia |].
  rewrite Htemp in Hp. cbn [mbind result_bind] in Hp.
  inversion Hsame as [|q ? temp' ? Hq _]; subst. by simplify_eq.
Qed.
End StepEndpoint.

Section ResolutionEndpoint.
Import F32 Editor.

Local Abbreviation fin := (fun a : float => finite a = true).

Lemma flat_blend_at_zero (temp orig : list float) (j : nat) :
  Forall fin orig -> Forall2 same temp orig -> j * 2 + 3 < length temp ->
  exists temp', blend zero temp j = Ok temp' /\ Forall2 same temp' orig.
Proof.
  intros Hfin Hsame Hj.
  destruct (flat_blend_Ok zero temp j Hj) as (a & b & c & d & Ha & Hb & Hc & Hd & ->).
  destruct (Forall2_lookup_l _ _ _ _ _ Hsame Ha) as (oa & Hoa & Sa).
  destruct (Forall2_lookup_l _ _ _ _ _ Hsame Hb) as (ob & Hob & Sb).
  destruct (Forall2_lookup_l _ _ _ _ _ Hsame Hc) as (oc & Hoc & Sc).
  destruct (Forall2_lookup_l _ _ _ _ _ Hsame Hd) as (od & Hod & Sd).
  pose proof (Forall_lookup_1 _ _ _ _ Hfin Hoa) as Foa.
  pose proof (Forall_lookup_1 _ _ _ _ Hfin Hob) as Fob.
  pose proof (Forall_lookup_1 _ _ _ _ Hfin Hoc) as Foc.
  pose proof (Forall_lookup_1 _ _ _ _ Hfin Hod) as Fod.
  eexists. split; [done |].
  rewrite <- (list_insert_id orig (j * 2 + 1) oc) by done.
  apply Forall2_insert.
  - rewrite <- (list_insert_id orig (j * 2) oa) by done.
    apply Forall2_insert; [done |].
    eapply same_trans; [| exact Sa]. apply lerp_zero; by eapply same_finite.
  - eapply same_trans; [| exact Sc]. apply lerp_zero; by eapply same_finite.
Qed.

Lemma flat_blend_row_at_zero (cnt from : nat) (temp orig : list float) :
  Forall fin orig -> Forall2 same temp orig -> (from + cnt) * 2 + 1 < length temp ->
  exists temp', blend_row zero cnt from temp = Ok temp' /\ Forall2 same temp' orig.
Proof.
  intros Hfin. revert from temp.
  induction cnt as [|cnt IH]; intros from temp Hsame Hlen.
  - by exists temp.
  - cbn [blend_row].
    destruct (flat_blend_at_zero temp orig from Hfin Hsame) as (temp1 & -> & Hsame1); [lia |].
    cbn [mbind result_bind]. apply IH; [done |].
    rewrite (Forall2_length _ _ _ Hsame1), <- (Forall2_length _ _ _ Hsame). lia.
Qed.

Lemma flat_blend_rows_at_zero (n : Z) (cnt from : nat) (temp orig : list float) :
  Forall fin orig -> Forall2 same temp orig ->
  0 < from -> (0 <= n)%Z -> (2 * n + 1 < Z.of_nat (length temp))%Z ->
  exists temp', blend_rows zero n cnt from temp = Ok temp' /\ Forall2 same temp' orig.
Proof.
  intros Hfin. revert from temp.
  induction cnt as [|cnt IH]; intros from temp Hsame Hfrom Hn Hlen.
  - by exists temp.
  - cbn [blend_rows]. pose proof (Forall2_length _ _ _ Hsame) as Hl.
    destruct (flat_blend_row_at_zero (Z.to_nat (n - Z.of_nat from + 1)) 0 temp orig Hfin Hsame)
      as (temp1 & -> & Hsame1); [lia |].
    cbn [mbind result_bind]. apply IH; [done | lia | done |].
    rewrite (Forall2_length _ _ _ Hsame1). lia.
Qed.

Lemma Forall2_same_refl (l : list float) : Forall2 same l l.
Proof. induction l; constructor; [apply same_refl | done]. Qed.

(** One row at [t = 1] moves the following pair of coordinates onto each
    pair it visits and leaves the other entries as they are. *)
Lemma flat_blend_row_at_one (cnt from : nat) (temp : list float) :
  (forall i a, from * 2 <= i < (from + cnt) * 2 + 2 -> temp !! i = Some a -> finite a = true) ->
  (from + cnt) * 2 + 1 < length temp ->
  exists temp',
    blend_row one cnt from temp = Ok temp' /\ length temp' = length temp /\
    (forall i, from * 2 <= i < (from + cnt) * 2 ->
       exists a b, temp' !! i = Some a /\ temp !! (i + 2) = Some b /\ same a b) /\
    (forall i, i < from * 2 \/ (from + cnt) * 2 <= i -> temp' !! i = temp !! i).
Proof.
  revert from temp. induction cnt as [|cnt IH]; intros from temp Hfin Hlen.
  - exists temp. split; [done |]. split; [done |]. split; [intros i Hi; lia | done].
  - cbn [blend_row].
    destruct (flat_blend_Ok one temp from) as (a & b & c & d & Ha & Hb & Hc & Hd & ->); [lia |].
    cbn [mbind result_bind].
    set (v1 := add (mul (sub one one) a) (mul one b)).
    set (v2 := add (mul (sub one one) c) (mul one d)).
    assert (S1 : same v1 b) by (apply lerp_one; [apply (Hfin (from * 2)) | apply (Hfin ((from + 1) * 2))]; done || lia).
    assert (S2 : same v2 d) by (apply lerp_one; [apply (Hfin (from * 2 + 1)) | apply (Hfin ((from + 1) * 2 + 1))]; done || lia).
    set (temp1 := <[from * 2 + 1 := v2]> (<[from * 2 := v1]> temp)).
    assert (Hl1 : length temp1 = length temp) by (unfold temp1; by rewrite !length_insert).
    assert (Hkeep : forall i, i <> from * 2 -> i <> from * 2 + 1 -> temp1 !! i = temp !! i).
    { intros i H1 H2. unfold temp1. by rewrite !list_lookup_insert_ne by lia. }
    destruct (IH (S from) temp1) as (temp' & -> & Hl & Hmoved & Hrest).
    + intros i x Hi Hx. rewrite Hkeep in Hx by lia. apply (Hfin i x); [lia | done].
    + lia.
    + exists temp'. split; [done |]. split; [lia |]. split.
      * intros i Hi.
        destruct (decide (i = from * 2)) as [-> | N1];
          [| destruct (decide (i = from * 2 + 1)) as [-> | N2]].
        -- exists v1, b. rewrite Hrest by lia. unfold temp1.
           rewrite list_lookup_insert_ne by lia.
           rewrite list_lookup_insert_eq by lia.
           split; [done |]. split; [| done]. rewrite <- Hb. f_equal. lia.
        -- exists v2, d. rewrite Hrest by lia. unfold temp1.
           rewrite list_lookup_insert_eq by (rewrite length_insert; lia).
           split; [done |]. split; [| done]. rewrite <- Hd. f_equal. lia.
        -- destruct (Hmoved i) as (x & z & Hx & Hz & Hxz); [lia |].
           exists x, z. split; [done |]. split; [| done].
           rewrite Hkeep in Hz by lia. done.
      * intros i Hi. rewrite Hrest by lia. apply Hkeep; lia.
Qed.

(** After [k] rows at [t = 1] the buffer holds the control points shifted
    by [k] pairs. *)
Lemma flat_blend_rows_at_one (points : list float) (n cnt from : nat) (temp : list float) :
  Forall fin points -> n * 2 + 1 < length points -> length temp = length points ->
  0 < from -> from + cnt <= n + 1 ->
  (forall i, i < (n + 2 - from) * 2 ->
     exists a b, temp !! i = Some a /\ points !! (i + (from - 1) * 2) = Some b /\ same a b) ->
  exists temp',
    blend_rows one (Z.of_nat n) cnt from temp = Ok temp' /\ length temp' = length points /\
    (forall i, i < (n + 2 - (from + cnt)) * 2 ->
       exists a b, temp' !! i = Some a /\ points !! (i + (from + cnt - 1) * 2) = Some b /\
                   same a b).
Proof.
  intros Hfin Hn. revert from temp.
  induction cnt as [|cnt IH]; intros from temp Hl Hfrom Hle Hinv.
  - exists temp. split; [done |]. split; [done |].
    intros i Hi. replace (from + 0) with from in * by lia. by apply Hinv.
  - cbn [blend_rows].
    replace (Z.to_nat (Z.of_nat n - Z.of_nat from + 1)) with (n + 1 - from) by lia.
    destruct (flat_blend_row_at_one (n + 1 - from) 0 temp) as (temp1 & -> & Hl1 & Hmoved & _).
    + intros i x Hi Hx. destruct (Hinv i) as (a & b & Ha & Hb & Sab); [lia |].
      rewrite Ha in Hx. injection Hx as <-.
      eapply same_finite; [exact Sab |]. exact (Forall_lookup_1 _ _ _ _ Hfin Hb).
    + lia.
    + cbn [mbind result_bind].
      destruct (IH (S from) temp1) as (temp' & -> & Hl' & Hinv'); [lia | lia | lia | |].
      * intros i Hi. destruct (Hmoved i) as (x & z & Hx & Hz & Sxz); [lia |].
        destruct (Hinv (i + 2)) as (a & b & Ha & Hb & Sab); [lia |].
        rewrite Ha in Hz. injection Hz as <-.
        exists x, b. split; [done |]. split; [| by eapply same_trans].
        rewrite <- Hb. f_equal. lia.
      * exists temp'. split; [done |]. split; [done |].
        intros i Hi. destruct (Hinv' i) as (a & b & Ha & Hb & Sab); [lia |].
        exists a, b. split; [done |]. split; [| done]. rewrite <- Hb. f_equal. lia.
Qed.

Lemma sample_loop_snoc (resolution : Z) (points : list float) (n : Z) (cnt : nat) (from : Z)
    (curve : list float) :
  sample_loop resolution points n (S cnt) from curve
  = (curve' ← sample_loop resolution points n cnt from curve;
     sample resolution points n curve' (from + Z.of_nat cnt)).
Proof.
  revert from curve. induction cnt as [|cnt IH]; intros from curve.
  - cbn [sample_loop mbind result_bind]. rewrite Z.add_0_r.
    by destruct (sample resolution points n curve from).
  - change (sample_loop resolution points n (S (S cnt)) from curve)
      with (curve' ← sample resolution points n curve from;
            sample_loop resolution points n (S cnt) (from + 1) curve').
    change (sample_loop resolution points n (S cnt) from curve)
      with (curve' ← sample resolution points n curve from;
            sample_loop resolution points n cnt (from + 1) curve').
    destruct (sample resolution points n curve from) as [curve1| |];
      cbn [mbind result_bind]; [|done|done].
    rewrite IH.
    replace (from + Z.of_nat (S cnt))%Z with (from + 1 + Z.of_nat cnt)%Z by lia. done.
Qed.

(** The first and the last pair of the curve are the first and the last
    control point. *)
Lemma computeBezierCurve_endpoints (points : list float) (N : nat) :
  Forall fin points -> length points = N * 2 -> 2 <= N -> (Z.of_nat N * 2 < 2 ^ 31)%Z ->
  exists curve,
    computeBezierCurve points = Ok curve /\
    forall k, k < 2 ->
      (exists a b, curve !! k = Some a /\ points !! k = Some b /\ same a b) /\
      (exists a b, curve !! (200 + k) = Some a /\ points !! ((N - 1) * 2 + k) = Some b /\
                   same a b).
Proof.
  intros Hfin Hlen HN Hint.
  unfold computeBezierCurve, computeBezierCurve_at.
  rewrite degree_int by lia.
  replace (Z.of_nat (length points) / 2 - 1)%Z with (Z.of_nat (N - 1)) by lia.
  destruct (Z.ltb_spec (Z.of_nat (N - 1)) 1); [lia |].
  change (Z.to_nat (CURVE_RESOLUTION + 1)) with (S (Z.to_nat 100)).
  rewrite sample_loop_snoc.
  destruct (sample_loop_Ok CURVE_RESOLUTION points (Z.of_nat (N - 1)) (Z.to_nat 100) 0 [])
    as (c & Hc & Hlc); [lia | lia |].
  rewrite Hc. cbn [mbind result_bind app].
  (* the last sample, at t = 1 *)
  assert (Hlast : exists x y,
             sample CURVE_RESOLUTION points (Z.of_nat (N - 1)) c (0 + Z.of_nat (Z.to_nat 100))
             = Ok (c ++ [x; y]) /\
             (exists b, points !! ((N - 1) * 2) = Some b /\ same x b) /\
             (exists b, points !! ((N - 1) * 2 + 1) = Some b /\ same y b)).
  { unfold sample.
    change (div (of_Z (0 + Z.of_nat (Z.to_nat 100))) (of_Z CURVE_RESOLUTION)) with one.
    rewrite Nat2Z.id.
    destruct (flat_blend_rows_at_one points (N - 1) (N - 1) 1 points)
      as (temp & -> & Hl & Hinv); [done | lia | done | lia | lia | |].
    - intros i Hi. destruct (lookup_lt points i) as [a Ha]; [lia |].
      exists a, a. split; [done |]. split; [| apply same_refl].
      rewrite <- Ha. f_equal. lia.
    - cbn [mbind result_bind].
      destruct (Hinv 0) as (x & bx & Hx & Hbx & Sx); [lia |].
      destruct (Hinv 1) as (y & by' & Hy & Hby & Sy); [lia |].
      rewrite (rd_lookup _ _ _ Hx), (rd_lookup _ _ _ Hy). cbn [mbind result_bind].
      exists x, y. split; [done |]. split.
      + exists bx. split; [| done]. rewrite <- Hbx. f_equal. lia.
      + exists by'. split; [| done]. rewrite <- Hby. f_equal. lia. }
  destruct Hlast as (x1 & y1 & -> & (b1 & Hb1 & S1) & (b1' & Hb1' & S1')).
  (* the first sample, at t = 0 *)
  assert (Hfirst : exists x y rest,
             c = x :: y :: rest /\
             (exists b, points !! 0 = Some b /\ same x b) /\
             (exists b, points !! 1 = Some b /\ same y b)).
  { change (Z.to_nat 100) with (S (Z.to_nat 99)) in Hc. cbn [sample_loop] in Hc.
    bind_inv Hc. unfold sample in Hc0.
    change (div (of_Z 0) (of_Z CURVE_RESOLUTION)) with zero in Hc0.
    destruct (flat_blend_rows_at_zero (Z.of_nat (N - 1)) (Z.to_nat (Z.of_nat (N - 1))) 1
                points points)
      as (temp & Htemp & Hsame);
      [done | apply Forall2_same_refl | lia | lia | lia |].
    rewrite Htemp in Hc0. cbn [mbind result_bind] in Hc0.
    do 2 bind_inv Hc0. injection Hc0 as <-.
    apply rd_Ok in Hc1, Hc2.
    destruct (Forall2_lookup_l _ _ _ _ _ Hsame Hc1) as (b0 & Hb0 & S0).
    destruct (Forall2_lookup_l _ _ _ _ _ Hsame Hc2) as (b0' & Hb0' & S0').
    destruct (sample_loop_Ok CURVE_RESOLUTION points (Z.of_nat (N - 1)) (Z.to_nat 99)
                (0 + 1) [r0; r1]) as (rest & Hrest & _); [lia | lia |].
    rewrite Hrest in Hc. cbn [app] in Hc. injection Hc as <-.
    exists r0, r1, rest. split; [done |]. split; by eauto. }
  destruct Hfirst as (x0 & y0 & rest & -> & (b0 & Hb0 & S0) & (b0' & Hb0' & S0')).
  eexists. split; [done |].
  assert (Hlrest : length rest = 198) by (cbn [length] in Hlc; lia).
  intros k Hk. assert (k = 0 \/ k = 1) as [-> | ->] by lia.
  - split; [by exists x0, b0 |]. exists x1, b1.
    split; [| split; [by rewrite Nat.add_0_r | done]].
    rewrite lookup_app_r by (cbn [length]; lia).
    replace (200 + 0 - length (x0 :: y0 :: rest)) with 0 by (cbn [length]; lia). done.
  - split; [by exists y0, b0' |]. exists y1, b1'.
    split; [| split; [done | done]].
    rewrite lookup_app_r by (cbn [length]; lia).
    replace (200 + 1 - length (x0 :: y0 :: rest)) with 1 by (cbn [length]; lia). done.
Qed.
End ResolutionEndpoint.

Section Endpoints.
Import F32.

(** C5, on the step-based editor: with the control points (0,0) and
    (100,0), [compute_curve] returns a curve whose last sample is not the
    last control point (100,0) but the point of abscissa
    13106591 * 2^-17, about 99.9954. The loop [t <= 1.0f] is written to
    end on t = 1, but the last parameter the float accumulator reaches is
    below 1, and the next addition passes 1.0f. *)
Theorem step_last_sample_misses_endpoint :
  let control_points :=
    [BezierCurve.mkPoint zero zero; BezierCurve.mkPoint (of_Z 100) zero] in
  2 <= length control_points /\
  last control_points = Some (BezierCurve.mkPoint (of_Z 100) zero) /\
  (curve ← BezierCurve.compute_curve control_points; Ok (last curve))
  = Ok (Some (BezierCurve.mkPoint (S754_finite false 13106591 (-17)) zero)) /\
  ltb (S754_finite false 13106591 (-17)) (of_Z 100) = true /\
  (curve ← BezierCurve.compute_curve control_points;
   Ok (option_map (fun p => BezierCurve.Point_eqb p (BezierCurve.mkPoint (of_Z 100) zero))
                  (last curve)))
  = Ok (Some false) /\
  (ts ← BezierCurve.curve_params BezierCurve.curve_fuel zero;
   t ← last ts;
   Some (ltb t one, leb (add t BezierCurve.CURVE_STEP) one))
  = Some (true, false).
Proof.
  split; [cbn; lia |]. split; [reflexivity |].
  repeat split; vm_compute; reflexivity.
Qed.

(** X17: the endpoints that are interpolated: for N >= 2 finite control points,
    the first sample of the step-based curve equals the first control
    point; the first and the last sample of the resolution-based curve
    (for a buffer of fewer than 2^31 coordinates) equal the first and the
    last control point. Equality is [==] on each coordinate. *)
Theorem curve_endpoints
    (control_points : list BezierCurve.Point) (p0 : BezierCurve.Point)
    (points : list float) (N : nat) :
  Forall BezierCurve.Point_finite control_points ->
  2 <= length control_points ->
  head control_points = Some p0 ->
  Forall (fun a => finite a = true) points ->
  length points = N * 2 ->
  2 <= N ->
  (Z.of_nat N * 2 < 2 ^ 31)%Z ->
  (exists p curve,
     BezierCurve.compute_curve control_points = Ok (p :: curve) /\
     BezierCurve.Point_eqb p p0 = true) /\
  (exists curve,
     Editor.computeBezierCurve points = Ok curve /\
     length curve = 202 /\
     forall k, k < 2 ->
       (exists a b, curve !! k = Some a /\ points !! k = Some b /\ eqb a b = true) /\
       (exists a b, curve !! (200 + k) = Some a /\ points !! ((N - 1) * 2 + k) = Some b /\
                    eqb a b = true)).
Proof.
  intros Hfin Hlen Hhead Hfin' Hlen' HN Hint. split.
  - destruct (compute_curve_Ok control_points Hlen) as (p & c & Hc & Hp & _).
    exists p, c. split; [done |].
    destruct control_points as [|q rest]; [done |]. injection Hhead as ->.
    apply Point_same_eqb; [by eapply compute_point_at_zero | by inversion Hfin].
  - destruct (computeBezierCurve_endpoints points N Hfin' Hlen' HN Hint) as (curve & Hc & Hends).
    exists curve. split; [done |]. split.
    { destruct (computeBezierCurve_Ok Editor.CURVE_RESOLUTION points) as (c & Hc' & Hl);
        [lia | lia |].
      unfold Editor.computeBezierCurve in Hc. rewrite Hc' in Hc. by simplify_eq. }
    intros k Hk.
    destruct (Hends k Hk) as [(a & b & Ha & Hb & Sab) (a' & b' & Ha' & Hb' & Sab')].
    split.
    + exists a, b. split; [done |]. split; [done |].
      apply same_eqb; [done |]. exact (Forall_lookup_1 _ _ _ _ Hfin' Hb).
    + exists a', b'. split; [done |]. split; [done |].
      apply same_eqb; [done |]. exact (Forall_lookup_1 _ _ _ _ Hfin' Hb').
Qed.

Lemma curve_endpoints_witness :
  (exists p curve,
     BezierCurve.compute_curve
       [BezierCurve.mkPoint zero zero; BezierCurve.mkPoint (of_Z 100) zero] = Ok (p :: curve) /\
     BezierCurve.Point_eqb p (BezierCurve.mkPoint zero zero) = true) /\
  (exists curve,
     Editor.computeBezierCurve Editor.initial_points = Ok curve /\
     length curve = 202 /\
     forall k, k < 2 ->
       (exists a b, curve !! k = Some a /\ Editor.initial_points !! k = Some b /\
                    eqb a b = true) /\
       (exists a b, curve !! (200 + k) = Some a /\
                    Editor.initial_points !! ((4 - 1) * 2 + k) = Some b /\
                    eqb a b = true)).
Proof.
  apply (curve_endpoints
           [BezierCurve.mkPoint zero zero; BezierCurve.mkPoint (of_Z 100) zero]
           (BezierCurve.mkPoint zero zero) Editor.initial_points 4).
  - repeat constructor.
  - vm_compute; lia.
  - reflexivity.
  - repeat constructor.
  - reflexivity.
  - lia.
  - vm_compute; reflexivity.
Defined.
End Endpoints.

(** * Further properties of the two editors *)

(** ** The step-based editor *)

Section StepEditor.
Import F32 BezierCurve.

Lemma find_close_lt (q : Point) (l : list Point) (it : nat) :
  find_close q 0 l = Some it -> it < length l.
Proof.
  intros H. pose proof (find_close_first q 0 l) as Hf. rewrite H in Hf.
  destruct Hf as (i & p & -> & Hl & _). by apply lookup_lt_Some in Hl.
Qed.

Lemma moving_points_shape (st : state) :
  reachable st ->
  (is_moving st = false -> moving_points st = []) /\
  (is_moving st = true -> exists p, moving_points st = [p]).
Proof.
  induction 1 as [|o st st' _ [IHf IHt] Hstep]; [by split |].
  destruct o; cbn [step] in Hstep.
  - unfold handle_mouse_press in Hstep.
    destruct (button =? GLFW_MOUSE_BUTTON_LEFT)%Z; cbn [andb] in Hstep.
    + destruct (is_moving st) eqn:Hm; cbn [negb] in Hstep.
      * repeat case_match; try bind_inv Hstep; simplify_eq; cbn; by rewrite ?Hm.
      * destruct (find_close _ _ _); simplify_eq; cbn; [| by rewrite Hm].
        split; [done |]. intros _. rewrite IHf by done. by eexists.
    + repeat case_match; try bind_inv Hstep; by simplify_eq.
  - unfold handle_mouse_release in Hstep.
    repeat case_match; repeat bind_inv Hstep; simplify_eq; cbn; done.
  - unfold handle_key in Hstep. repeat case_match; by simplify_eq.
  - bind_inv Hstep. by simplify_eq.
Qed.

(** X1: in every reachable state the candidate list [moving_points] is
    empty outside a drag and holds exactly one point during a drag, the
    position of the primary press that started the drag: an operation
    that starts a drag is a primary press that hits a point, the handle
    names the first point it hits and [moving_points] is then exactly the
    press position; an operation during a drag that leaves the drag
    active leaves [moving_points] as it is. *)
Theorem moving_points_invariant (st : state) :
  reachable st ->
  (is_moving st = false -> moving_points st = []) /\
  (is_moving st = true -> exists p, moving_points st = [p]) /\
  (forall o st',
      is_moving st = false -> step o st = Ok st' -> is_moving st' = true ->
      exists x y,
        o = Press x y GLFW_MOUSE_BUTTON_LEFT /\
        find_close (mkPoint x y) 0 (control_points st) = Some (move_iter st') /\
        moving_points st' = [mkPoint x y]) /\
  (forall o st',
      is_moving st = true -> step o st = Ok st' -> is_moving st' = true ->
      moving_points st' = moving_points st).
Proof.
  intros Hreach. destruct (moving_points_shape st Hreach) as [IHf IHt].
  split; [exact IHf |]. split; [exact IHt |]. split.
  - intros o st' Hm Hstep Hm'. destruct o; cbn [step] in Hstep.
    + unfold handle_mouse_press in Hstep. rewrite Hm in Hstep. cbn [negb] in Hstep.
      rewrite andb_true_r in Hstep.
      destruct (Z.eqb_spec button GLFW_MOUSE_BUTTON_LEFT) as [-> |].
      * destruct (find_close _ _ _) as [it |] eqn:Hclose.
        -- injection Hstep as <-. cbn. exists x, y. by rewrite IHf.
        -- injection Hstep as <-. congruence.
      * repeat case_match; try bind_inv Hstep; injection Hstep as <-;
          cbn in Hm'; congruence.
    + unfold handle_mouse_release in Hstep. rewrite Hm in Hstep.
      repeat case_match; repeat bind_inv Hstep; injection Hstep as <-;
        cbn in Hm'; congruence.
    + unfold handle_key in Hstep.
      repeat case_match; injection Hstep as <-; cbn in Hm'; congruence.
    + bind_inv Hstep. injection Hstep as <-. cbn in Hm'. congruence.
  - intros o st' Hm Hstep Hm'. destruct o; cbn [step] in Hstep.
    + unfold handle_mouse_press in Hstep. rewrite Hm in Hstep. cbn [negb] in Hstep.
      rewrite andb_false_r in Hstep.
      repeat case_match; try bind_inv Hstep; by injection Hstep as <-.
    + unfold handle_mouse_release in Hstep. rewrite Hm in Hstep.
      repeat case_match; repeat bind_inv Hstep; injection Hstep as <-;
        [cbn in Hm'; discriminate Hm' | reflexivity].
    + unfold handle_key in Hstep.
      repeat case_match; injection Hstep as <-; try reflexivity;
        cbn in Hm'; discriminate Hm'.
    + bind_inv Hstep. by injection Hstep as <-.
Qed.

Lemma moving_points_invariant_witness :
  let st := mkState [mkPoint (of_Z 100) (of_Z 100)] [] [] 0 false false in
  step (Release (of_Z 100) (of_Z 100) GLFW_MOUSE_BUTTON_LEFT) init = Ok st /\
  is_moving st = false /\
  moving_points st = [] /\
  exists st',
    step (Press (of_Z 103) (of_Z 104) GLFW_MOUSE_BUTTON_LEFT) st = Ok st' /\
    is_moving st' = true /\
    moving_points st' = [mkPoint (of_Z 103) (of_Z 104)].
Proof.
  intros st. split; [vm_compute; reflexivity |]. split; [reflexivity |].
  destruct (moving_points_invariant st) as (Hf & _ & Hstart & _).
  - apply (reachable_step (Release (of_Z 100) (of_Z 100) GLFW_MOUSE_BUTTON_LEFT) init).
    + apply reachable_init.
    + vm_compute; reflexivity.
  - split; [apply Hf; reflexivity |].
    exists (mkState [mkPoint (of_Z 100) (of_Z 100)] []
              [mkPoint (of_Z 103) (of_Z 104)] 0 true false).
    split; [vm_compute; reflexivity |]. split; [reflexivity |].
    destruct (Hstart (Press (of_Z 103) (of_Z 104) GLFW_MOUSE_BUTTON_LEFT)
                (mkState [mkPoint (of_Z 100) (of_Z 100)] []
                   [mkPoint (of_Z 103) (of_Z 104)] 0 true false))
      as (x & y & Ho & _ & Hmp).
    + reflexivity.
    + vm_compute; reflexivity.
    + reflexivity.
    + injection Ho as <- <-. exact Hmp.
Defined.

(** X2: outside a drag, a primary press that hits the point at offset [it]
    followed by a primary release at (x',y') replaces exactly that point by
    the release position and ends the drag; the write is inside the list. *)
Theorem press_then_release_moves_point (st : state) (x y x' y' : float) (it : nat) :
  is_moving st = false ->
  find_close (mkPoint x y) 0 (control_points st) = Some it ->
  it < length (control_points st) /\
  exists curve,
    (st1 ← handle_mouse_press x y GLFW_MOUSE_BUTTON_LEFT st;
     handle_mouse_release x' y' GLFW_MOUSE_BUTTON_LEFT st1)
    = Ok (mkState (<[it := mkPoint x' y']> (control_points st)) curve [] it false
            (is_deleting st)).
Proof.
  intros Hm Hfind. pose proof (find_close_lt _ _ _ Hfind) as Hit. split; [done |].
  unfold handle_mouse_press.
  change (GLFW_MOUSE_BUTTON_LEFT =? GLFW_MOUSE_BUTTON_LEFT)%Z with true.
  rewrite Hm, Hfind. cbn [negb andb mbind result_bind].
  unfold handle_mouse_release.
  change (GLFW_MOUSE_BUTTON_LEFT =? GLFW_MOUSE_BUTTON_LEFT)%Z with true.
  cbn [is_moving control_points move_iter is_deleting].
  rewrite wr_lt by done. cbn [mbind result_bind].
  edestruct compute_curve_total as [curve ->]. by exists curve.
Qed.

Lemma press_then_release_moves_point_witness :
  exists curve,
    (st1 ← handle_mouse_press (of_Z 200) (of_Z 200) GLFW_MOUSE_BUTTON_LEFT
             (mkState [mkPoint (of_Z 100) (of_Z 100); mkPoint (of_Z 200) (of_Z 200)]
                [] [] 0 false false);
     handle_mouse_release (of_Z 300) (of_Z 50) GLFW_MOUSE_BUTTON_LEFT st1)
    = Ok (mkState [mkPoint (of_Z 100) (of_Z 100); mkPoint (of_Z 300) (of_Z 50)]
            curve [] 1 false false).
Proof.
  destruct (press_then_release_moves_point
              (mkState [mkPoint (of_Z 100) (of_Z 100); mkPoint (of_Z 200) (of_Z 200)]
                 [] [] 0 false false)
              (of_Z 200) (of_Z 200) (of_Z 300) (of_Z 50) 1) as [_ [curve H]].
  - reflexivity.
  - vm_compute; reflexivity.
  - exists curve. exact H.
Defined.

(** X3: a secondary press that hits the point at offset [it] shortens the
    list by one; the points before [it] stay in place and the points after
    it move down by one. *)
Theorem delete_shifts_points (st st' : state) (x y : float) (it : nat) :
  find_close (mkPoint x y) 0 (control_points st) = Some it ->
  handle_mouse_press x y GLFW_MOUSE_BUTTON_RIGHT st = Ok st' ->
  S (length (control_points st')) = length (control_points st) /\
  (forall k, k < it -> control_points st' !! k = control_points st !! k) /\
  (forall k, it <= k -> control_points st' !! k = control_points st !! S k).
Proof.
  intros Hfind Hpress. pose proof (find_close_lt _ _ _ Hfind) as Hit.
  unfold handle_mouse_press in Hpress.
  change (GLFW_MOUSE_BUTTON_RIGHT =? GLFW_MOUSE_BUTTON_LEFT)%Z with false in Hpress.
  change (GLFW_MOUSE_BUTTON_RIGHT =? GLFW_MOUSE_BUTTON_RIGHT)%Z with true in Hpress.
  cbn [andb] in Hpress. rewrite Hfind in Hpress. cbn zeta in Hpress.
  bind_inv Hpress. injection Hpress as <-. cbn [control_points]. unfold erase.
  split; [| split].
  - rewrite length_app, length_take, length_drop. lia.
  - intros k Hk. rewrite lookup_app_l by (rewrite length_take; lia).
    by apply lookup_take_lt.
  - intros k Hk. rewrite lookup_app_r by (rewrite length_take; lia).
    rewrite length_take, lookup_drop. f_equal. lia.
Qed.

Lemma delete_shifts_points_witness :
  let st := mkState [mkPoint (of_Z 100) (of_Z 100); mkPoint (of_Z 200) (of_Z 200)]
              [] [] 0 false false in
  let st' := mkState [mkPoint (of_Z 200) (of_Z 200)] [] [] 0 false false in
  handle_mouse_press (of_Z 100) (of_Z 100) GLFW_MOUSE_BUTTON_RIGHT st = Ok st' /\
  S (length (control_points st')) = length (control_points st) /\
  (forall k, k < 0 -> control_points st' !! k = control_points st !! k) /\
  (forall k, 0 <= k -> control_points st' !! k = control_points st !! S k).
Proof.
  intros st st'. split; [vm_compute; reflexivity |].
  apply (delete_shifts_points st st' (of_Z 100) (of_Z 100) 0).
  - vm_compute; reflexivity.
  - vm_compute; reflexivity.
Defined.

(** X4: the flag [is_deleting] is dead: whatever its value, every operation
    gives the same outcome and the same control points, curve, candidate
    list, handle and drag flag. *)
Theorem is_deleting_is_dead (o : op) (st : state) (b : bool) :
  let view s :=
    (control_points s, curve_points s, moving_points s, move_iter s, is_moving s) in
  (s ← step o (mkState (control_points st) (curve_points st) (moving_points st)
                 (move_iter st) (is_moving st) b);
   Ok (view s))
  = (s ← step o st; Ok (view s)).
Proof.
  destruct st as [cps curve mp it mov del]. destruct o; cbn.
  - unfold handle_mouse_press. cbn.
    repeat case_match; simplify_eq; cbn; try done;
      by destruct (compute_curve _).
  - unfold handle_mouse_release. cbn.
    repeat case_match; simplify_eq; cbn; try done;
      try (by destruct (compute_curve _)).
    destruct (wr cps it _); cbn; try done. by destruct (compute_curve _).
  - unfold handle_key. cbn. by repeat case_match.
  - by destruct (compute_curve _).
Qed.

Lemma sub_diag (a : float) : finite a = true -> sub a a = zero.
Proof.
  destruct a as [[|]| | |s m e]; try done. intros _.
  unfold sub, SFsub. by rewrite Z.sub_diag.
Qed.

Lemma is_close_refl (p : Point) : Point_finite p -> is_close p p = true.
Proof.
  intros [Hx Hy]. unfold is_close. by rewrite !sub_diag.
Qed.

(** X5: a press exactly on a finite control point always hits: the search
    returns a point at or before it, never none. *)
Theorem click_on_point_hits (control_points : list Point) (i : nat) (p : Point) :
  control_points !! i = Some p ->
  Point_finite p ->
  exists it, find_close p 0 control_points = Some it /\ it <= i.
Proof.
  intros Hp Hfin. pose proof (find_close_first p 0 control_points) as Hf.
  pose proof (is_close_refl p Hfin) as Hc.
  destruct (find_close p 0 control_points) as [it|].
  - exists it. split; [done |].
    destruct Hf as (j & q & -> & _ & _ & Hbefore).
    destruct (decide (j <= i)) as [|Hgt]; [lia |].
    rewrite (Hbefore i p) in Hc by (lia || done). done.
  - rewrite (Hf i p Hp) in Hc. done.
Qed.

Lemma click_on_point_hits_witness :
  exists it,
    find_close (mkPoint (of_Z 200) (of_Z 200)) 0
      [mkPoint (of_Z 100) (of_Z 100); mkPoint (of_Z 200) (of_Z 200)] = Some it /\
    it <= 1.
Proof.
  apply (click_on_point_hits
           [mkPoint (of_Z 100) (of_Z 100); mkPoint (of_Z 200) (of_Z 200)] 1
           (mkPoint (of_Z 200) (of_Z 200))).
  - reflexivity.
  - split; reflexivity.
Defined.

(** X6: a press of ENTER or of SPACE empties the editor and cancels a drag
    in any state, whatever the handle: the primary release that follows
    adds its position as the only point, with an empty curve, and does not
    write through the handle. *)
Theorem clear_then_release_adds (st : state) (key : Z) (x y : float) :
  key = GLFW_KEY_ENTER \/ key = GLFW_KEY_SPACE ->
  (st1 ← handle_key key GLFW_PRESS st;
   handle_mouse_release x y GLFW_MOUSE_BUTTON_LEFT st1)
  = Ok (mkState [mkPoint x y] [] [] (move_iter st) false false).
Proof. by intros [-> | ->]. Qed.

Lemma clear_then_release_adds_witness :
  (st1 ← handle_key GLFW_KEY_SPACE GLFW_PRESS
           (mkState [mkPoint (of_Z 100) (of_Z 100)] [] [mkPoint (of_Z 100) (of_Z 100)]
              5 true false);
   handle_mouse_release (of_Z 7) (of_Z 8) GLFW_MOUSE_BUTTON_LEFT st1)
  = Ok (mkState [mkPoint (of_Z 7) (of_Z 8)] [] [] 5 false false).
Proof.
  apply (clear_then_release_adds
           (mkState [mkPoint (of_Z 100) (of_Z 100)] [] [mkPoint (of_Z 100) (of_Z 100)]
              5 true false) GLFW_KEY_SPACE (of_Z 7) (of_Z 8)).
  right. reflexivity.
Defined.
End StepEditor.

(** ** The resolution-based editor *)

Section ResolutionEditor.
Import F32 Editor.

Lemma findPointUnderCursor_range (controlPoints : list float) (x y threshold : float) (r : Z) :
  findPointUnderCursor controlPoints x y threshold = Ok r ->
  r = (-1)%Z \/ exists i, r = Z.of_nat i /\ i < length controlPoints / 2.
Proof.
  unfold findPointUnderCursor. intros Hr.
  destruct (find_loop_first controlPoints x y threshold (length controlPoints / 2) 0)
    as (r' & Hr' & Hspec); [lia |].
  rewrite Hr in Hr'. injection Hr' as <-.
  destruct Hspec as [[-> _] | (i & d & -> & Hi & _)]; [by left | right].
  exists i. split; [done | lia].
Qed.

Lemma updateBuffers_fields (st st' : state) :
  updateBuffers st = Ok st' ->
  controlPoints st' = controlPoints st /\ dragging st' = dragging st /\
  draggedIndex st' = draggedIndex st.
Proof. unfold updateBuffers. intros H. bind_inv H. by simplify_eq. Qed.

Lemma wr_int_Ok (v v' : list float) (i : Z) (a : float) :
  wr_int v i a = Ok v' -> length v' = length v.
Proof.
  unfold wr_int. destruct (i <? 0)%Z; [done |]. intros H.
  apply wr_Ok in H as [_ ->]. by rewrite length_insert.
Qed.

Lemma length_erase_pair (v : list float) (i : nat) :
  i < length v / 2 -> length (erase v (i * 2) 2) + 2 = length v.
Proof. intros Hi. unfold erase. rewrite length_app, length_take, length_drop. lia. Qed.

Lemma editor_step_invariant (e : event) (st st' : state) :
  step e st = Ok st' ->
  length (controlPoints st) mod 2 = 0 /\ 4 <= length (controlPoints st) /\
  ((dragging st = false /\ draggedIndex st = (-1)%Z) \/
   (dragging st = true /\ (0 <= draggedIndex st)%Z)) ->
  length (controlPoints st') mod 2 = 0 /\ 4 <= length (controlPoints st') /\
  ((dragging st' = false /\ draggedIndex st' = (-1)%Z) \/
   (dragging st' = true /\ (0 <= draggedIndex st')%Z)).
Proof.
  intros Hstep (Heven & Hmin & Hdrag). destruct e; cbn [step] in Hstep.
  - unfold mouse_button_callback in Hstep.
    destruct (action =? GLFW_PRESS)%Z.
    + destruct (screenToGLCoords xpos ypos) as [mx my].
      destruct (button =? GLFW_MOUSE_BUTTON_LEFT)%Z.
      * bind_inv Hstep. apply findPointUnderCursor_range in Hstep0.
        destruct (Z.eqb_spec r (-1)); cbn [negb] in Hstep.
        -- apply updateBuffers_fields in Hstep as (-> & -> & ->). cbn [controlPoints dragging draggedIndex].
           rewrite length_app. cbn [length]. split; [lia | split; [lia | done]].
        -- injection Hstep as <-. cbn [controlPoints dragging draggedIndex].
           destruct Hstep0 as [-> | (i & -> & _)]; [done |].
           split; [done | split; [done |]]. right. split; [done | lia].
      * destruct (_ && _); [| by simplify_eq].
        bind_inv Hstep. apply findPointUnderCursor_range in Hstep0.
        destruct (Z.eqb_spec r (-1)); cbn [negb] in Hstep; [by simplify_eq |].
        destruct Hstep0 as [-> | (i & -> & Hi)]; [done |].
        destruct (decide (4 < length (controlPoints st))); [| by simplify_eq].
        apply updateBuffers_fields in Hstep as (-> & -> & ->). cbn [controlPoints dragging draggedIndex].
        rewrite Nat2Z.id. pose proof (length_erase_pair _ _ Hi).
        split; [lia | split; [lia | done]].
    + destruct (action =? GLFW_RELEASE)%Z; simplify_eq; cbn [controlPoints dragging draggedIndex]; [| done].
      split; [done | split; [done |]]. by left.
  - unfold cursor_position_callback in Hstep.
    destruct (_ && _); [| by simplify_eq].
    destruct (screenToGLCoords xpos ypos) as [mx my].
    do 2 bind_inv Hstep.
    apply wr_int_Ok in Hstep0, Hstep1.
    apply updateBuffers_fields in Hstep as (-> & -> & ->). cbn [controlPoints dragging draggedIndex].
    rewrite Hstep1, Hstep0. done.
Qed.

(** X7: in every reachable state of the resolution-based editor the buffer
    holds whole points and at least 2 of them, the drag flag and the drag
    index agree (no drag and -1, or a drag and a non-negative index), and,
    for a buffer of fewer than 2^31 coordinates, the curve has its 101
    samples: it is never empty. *)
Theorem editor_invariant (st : state) :
  reachable st ->
  length (controlPoints st) mod 2 = 0 /\
  4 <= length (controlPoints st) /\
  ((dragging st = false /\ draggedIndex st = (-1)%Z) \/
   (dragging st = true /\ (0 <= draggedIndex st)%Z)) /\
  ((Z.of_nat (length (controlPoints st)) < 2 ^ 31)%Z -> length (curvePoints st) = 202).
Proof.
  intros Hreach.
  assert (Hinv : length (controlPoints st) mod 2 = 0 /\ 4 <= length (controlPoints st) /\
                 ((dragging st = false /\ draggedIndex st = (-1)%Z) \/
                  (dragging st = true /\ (0 <= draggedIndex st)%Z))).
  { induction Hreach as [st Hinit | e st st' _ IH Hstep].
    - apply updateBuffers_fields in Hinit as (-> & -> & ->). cbn [controlPoints dragging draggedIndex].
      split; [done | split; [cbn; lia | by left]].
    - by apply (editor_step_invariant e st st'). }
  destruct Hinv as (Heven & Hmin & Hdrag).
  split; [done | split; [done | split; [done |]]].
  intros Hint. pose proof (reachable_editor_invariant st Hreach) as Hcurve.
  destruct (computeBezierCurve_Ok CURVE_RESOLUTION (controlPoints st)) as (c & Hc & Hl);
    [lia | done |].
  unfold computeBezierCurve in Hcurve. rewrite Hc in Hcurve. by simplify_eq.
Qed.

Lemma editor_invariant_witness :
  exists st,
    init = Ok st /\
    length (controlPoints st) mod 2 = 0 /\
    4 <= length (controlPoints st) /\
    ((dragging st = false /\ draggedIndex st = (-1)%Z) \/
     (dragging st = true /\ (0 <= draggedIndex st)%Z)) /\
    ((Z.of_nat (length (controlPoints st)) < 2 ^ 31)%Z -> length (curvePoints st) = 202).
Proof.
  eexists. split; [vm_compute; reflexivity |].
  apply editor_invariant. apply reachable_init. vm_compute; reflexivity.
Defined.

(** X8: a primary press that hits the point of index [i] followed by a
    cursor move overwrites exactly the two coordinates of that point with
    the converted position of the move, inside the buffer, and the drag
    stays active. *)
Theorem press_then_move_drags
    (st : state) (xpos ypos xpos' ypos' : F64.double) (i : nat) :
  findPointUnderCursor (controlPoints st)
    (screenToGLCoords xpos ypos).1 (screenToGLCoords xpos ypos).2 default_threshold
  = Ok (Z.of_nat i) ->
  (Z.of_nat (length (controlPoints st)) < 2 ^ 31)%Z ->
  i * 2 + 1 < length (controlPoints st) /\
  exists curve,
    (st1 ← mouse_button_callback GLFW_MOUSE_BUTTON_LEFT GLFW_PRESS xpos ypos st;
     cursor_position_callback xpos' ypos' st1)
    = Ok (mkState
            (<[i * 2 + 1 := (screenToGLCoords xpos' ypos').2]>
               (<[i * 2 := (screenToGLCoords xpos' ypos').1]> (controlPoints st)))
            curve true (Z.of_nat i)).
Proof.
  intros Hfind Hint.
  assert (Hi : i < length (controlPoints st) / 2).
  { apply findPointUnderCursor_range in Hfind as [? | (j & Hj & ?)]; [lia |].
    by replace i with j by lia. }
  split; [lia |].
  unfold mouse_button_callback.
  change (GLFW_PRESS =? GLFW_PRESS)%Z with true.
  change (GLFW_MOUSE_BUTTON_LEFT =? GLFW_MOUSE_BUTTON_LEFT)%Z with true.
  destruct (screenToGLCoords xpos ypos) as [mx my]. cbn [fst snd] in Hfind.
  cbn match. rewrite Hfind. cbn [mbind result_bind].
  destruct (Z.eqb_spec (Z.of_nat i) (-1)); [lia |]. cbn [negb].
  unfold cursor_position_callback.
  cbn [mbind result_bind dragging draggedIndex controlPoints curvePoints].
  destruct (Z.eqb_spec (Z.of_nat i) (-1)); [lia |]. cbn [negb andb].
  destruct (screenToGLCoords xpos' ypos') as [mx' my']. cbn [fst snd].
  replace (Z.of_nat i * 2)%Z with (Z.of_nat (i * 2)) by lia.
  replace (Z.of_nat (i * 2) + 1)%Z with (Z.of_nat (i * 2 + 1)) by lia.
  rewrite wr_int_lt by lia. cbn [mbind result_bind].
  rewrite wr_int_lt by (rewrite length_insert; lia). cbn [mbind result_bind].
  edestruct updateBuffers_Ok as [curve ->]; [| by exists curve].
  cbn [controlPoints]. by rewrite !length_insert.
Qed.

Lemma press_then_move_drags_witness :
  exists curve,
    (st1 ← mouse_button_callback GLFW_MOUSE_BUTTON_LEFT GLFW_PRESS
             (F64.of_Z 720) (F64.of_Z 60) (mkState initial_points [] false (-1));
     cursor_position_callback (F64.of_Z 400) (F64.of_Z 300) st1)
    = Ok (mkState (take 6 initial_points ++ [zero; zero]) curve true 3).
Proof.
  destruct (press_then_move_drags (mkState initial_points [] false (-1))
              (F64.of_Z 720) (F64.of_Z 60) (F64.of_Z 400) (F64.of_Z 300) 3)
    as [_ [curve H]].
  - vm_compute; reflexivity.
  - vm_compute; reflexivity.
  - exists curve. exact H.
Defined.

(** X9: a query exactly on a finite control point always hits with the
    default threshold: the search returns that index or a lower one, never
    -1. *)
Theorem cursor_on_point_hits (controlPoints : list float) (i : nat) (a b : float) :
  controlPoints !! (i * 2) = Some a ->
  controlPoints !! (i * 2 + 1) = Some b ->
  finite a = true ->
  finite b = true ->
  exists r, findPointUnderCursor controlPoints a b default_threshold = Ok (Z.of_nat r) /\
            r <= i.
Proof.
  intros Ha Hb Fa Fb.
  assert (Hlen : i < length controlPoints / 2).
  { apply lookup_lt_Some in Hb. lia. }
  assert (Hd : getPointDistance controlPoints i a b = Ok zero).
  { unfold getPointDistance. rewrite (rd_lookup _ _ _ Ha), (rd_lookup _ _ _ Hb).
    cbn [mbind result_bind]. by rewrite !sub_diag. }
  unfold findPointUnderCursor.
  destruct (find_loop_first controlPoints a b default_threshold (length controlPoints / 2) 0)
    as (r & Hr & Hspec); [lia |].
  rewrite Hr.
  destruct Hspec as [[-> Hnone] | (j & d & -> & Hj & _ & _ & Hbefore)].
  - specialize (Hnone i zero ltac:(lia) Hd). done.
  - exists j. split; [done |].
    destruct (decide (j <= i)) as [|Hgt]; [done |].
    specialize (Hbefore i zero ltac:(lia) Hd). done.
Qed.

Lemma cursor_on_point_hits_witness :
  exists r, findPointUnderCursor initial_points (lit 4 10) (opp (lit 9 10)) default_threshold
            = Ok (Z.of_nat r) /\ r <= 2.
Proof.
  apply (cursor_on_point_hits initial_points 2 (lit 4 10) (opp (lit 9 10)));
    reflexivity.
Defined.
End ResolutionEditor.

(** ** Circles and the lit scene *)

Section CircleMesh.
Import F32 Circle.

Lemma rim_app (cosf sinf : float -> float) (centerX centerY radius aspect : float)
    (cnt : nat) (from : Z) (vertices : list float) :
  exists new,
    rim cosf sinf centerX centerY radius aspect cnt from vertices = vertices ++ new /\
    length new = 2 * cnt.
Proof.
  revert from vertices. induction cnt as [|cnt IH]; intros from vertices.
  - exists []. by rewrite app_nil_r.
  - cbn [rim]. edestruct IH as (new & -> & Hl).
    eexists (_ :: _ :: new). split; [by rewrite <- app_assoc | cbn [length]; lia].
Qed.

(** X10: whatever the centre, the radius and the values of [cosf] and
    [sinf], the triangle fan of a circle starts with the centre and holds
    34 vertices (68 coordinates), exactly the capacity reserved for it. *)
Theorem circle_fan_size (cosf sinf : float -> float) (centerX centerY radius : float) :
  take 2 (generateCircleVertices cosf sinf centerX centerY radius) = [centerX; centerY] /\
  Z.of_nat (length (generateCircleVertices cosf sinf centerX centerY radius))
  = (2 * (CIRCLE_SEGMENTS + 2))%Z.
Proof.
  unfold generateCircleVertices.
  edestruct rim_app as (new & -> & Hl). split; [done |].
  rewrite length_app, Hl. cbn [length]. unfold CIRCLE_SEGMENTS. lia.
Qed.
End CircleMesh.

Section SphereMesh.
Import F32 Scene.

Lemma sector_vertices_length (cosf sinf : float -> float) (sectors stacks : Z)
    (lengthInv sectorStep xy z : float) (i : Z) (cnt : nat) (from : Z)
    (vertices : list float) :
  length (sector_vertices cosf sinf sectors stacks lengthInv sectorStep xy z i cnt from
            vertices)
  = length vertices + 8 * cnt.
Proof.
  revert from vertices. induction cnt as [|cnt IH]; intros from vertices; cbn [sector_vertices].
  - lia.
  - rewrite IH, length_app. cbn [length]. lia.
Qed.

Lemma stack_vertices_length (cosf sinf : float -> float) (radius : float) (sectors stacks : Z)
    (lengthInv sectorStep stackStep : float) (cnt : nat) (from : Z) (vertices : list float) :
  length (stack_vertices cosf sinf radius sectors stacks lengthInv sectorStep stackStep
            cnt from vertices)
  = length vertices + cnt * (8 * Z.to_nat (sectors + 1)).
Proof.
  revert from vertices. induction cnt as [|cnt IH]; intros from vertices; cbn [stack_vertices].
  - lia.
  - rewrite IH, sector_vertices_length. lia.
Qed.

Lemma sector_indices_app (sectors stacks i : Z) (cnt : nat) (j k1 k2 : Z) (indices : list Z) :
  (0 <= sectors)%Z -> (0 <= i < stacks)%Z ->
  ((stacks + 1) * (sectors + 1) < 2 ^ 32)%Z ->
  (0 <= j)%Z -> (j + Z.of_nat cnt <= sectors)%Z ->
  k1 = (i * (sectors + 1) + j)%Z -> k2 = (k1 + sectors + 1)%Z ->
  exists new,
    sector_indices stacks i cnt k1 k2 indices = indices ++ new /\
    Forall (fun k => (0 <= k < (stacks + 1) * (sectors + 1))%Z) new /\
    Z.of_nat (length new)
    = (Z.of_nat cnt * ((if (i =? 0)%Z then 0 else 3)
                       + (if (i =? stacks - 1)%Z then 0 else 3)))%Z.
Proof.
  intros Hs Hi HB. revert j k1 k2 indices.
  assert (Hrow : ((i + 2) * (sectors + 1) <= (stacks + 1) * (sectors + 1))%Z) by nia.
  assert (Hpos : (0 <= i * (sectors + 1))%Z) by nia.
  assert (Hu : u32 (stacks - 1) = (stacks - 1)%Z).
  { unfold u32. apply Z.mod_small. nia. }
  induction cnt as [|cnt IH]; intros j k1 k2 indices Hj Hcnt Hk1 Hk2.
  - exists []. rewrite app_nil_r. split; [done |]. split; [constructor | cbn; lia].
  - cbn [sector_indices]. rewrite Hu.
    assert (Hk1' : u32 (k1 + 1) = (k1 + 1)%Z) by (unfold u32; apply Z.mod_small; lia).
    assert (Hk2' : u32 (k2 + 1) = (k2 + 1)%Z) by (unfold u32; apply Z.mod_small; lia).
    rewrite Hk1', Hk2'.
    edestruct (IH (j + 1)%Z (k1 + 1)%Z (k2 + 1)%Z) as (new & -> & Hall & Hlen);
      [lia | lia | lia | lia |].
    destruct (i =? 0)%Z, (i =? stacks - 1)%Z; cbn [negb].
    + exists new. split; [done |]. split; [done | lia].
    + exists ([k1 + 1; k2; k2 + 1]%Z ++ new). split; [by rewrite <- app_assoc |].
      split; [| rewrite length_app; cbn [length]; lia].
      apply Forall_app. split; [| done]. repeat constructor; lia.
    + exists ([k1; k2; k1 + 1]%Z ++ new). split; [by rewrite <- app_assoc |].
      split; [| rewrite length_app; cbn [length]; lia].
      apply Forall_app. split; [| done]. repeat constructor; lia.
    + exists ([k1; k2; k1 + 1]%Z ++ [k1 + 1; k2; k2 + 1]%Z ++ new).
      split; [by rewrite <- !app_assoc |].
      split; [| rewrite !length_app; cbn [length]; lia].
      apply Forall_app. split; [repeat constructor; lia |].
      apply Forall_app. split; [| done]. repeat constructor; lia.
Qed.

Lemma stack_indices_app (sectors stacks : Z) (cnt : nat) (from : Z) (indices : list Z) :
  (0 <= sectors)%Z -> (0 <= from)%Z -> (from + Z.of_nat cnt = stacks)%Z ->
  ((stacks + 1) * (sectors + 1) < 2 ^ 32)%Z ->
  exists new,
    stack_indices sectors stacks cnt from indices = indices ++ new /\
    Forall (fun k => (0 <= k < (stacks + 1) * (sectors + 1))%Z) new /\
    Z.of_nat (length new)
    = (3 * sectors * (2 * Z.of_nat cnt
                      - (if decide (cnt = 0%nat) then 0 else 1)
                      - (if decide (cnt <> 0%nat /\ from = 0%Z) then 1 else 0)))%Z.
Proof.
  intros Hs. revert from indices.
  induction cnt as [|cnt IH]; intros from indices Hfrom Hend HB.
  - exists []. rewrite app_nil_r. split; [done |]. split; [constructor |].
    rewrite decide_True by done. rewrite decide_False by tauto. cbn. lia.
  - cbn [stack_indices].
    assert (Hrow : ((from + 2) * (sectors + 1) <= (stacks + 1) * (sectors + 1))%Z) by nia.
    assert (Hpos : (0 <= from * (sectors + 1))%Z) by nia.
    assert (Hu1 : u32 (sectors + 1) = (sectors + 1)%Z) by (unfold u32; apply Z.mod_small; nia).
    rewrite Hu1.
    assert (Hu2 : u32 (from * (sectors + 1)) = (from * (sectors + 1))%Z)
      by (unfold u32; apply Z.mod_small; lia).
    rewrite Hu2.
    assert (Hu3 : u32 (from * (sectors + 1) + sectors) = (from * (sectors + 1) + sectors)%Z)
      by (unfold u32; apply Z.mod_small; lia).
    rewrite Hu3.
    assert (Hu4 : u32 (from * (sectors + 1) + sectors + 1)
                  = (from * (sectors + 1) + sectors + 1)%Z)
      by (unfold u32; apply Z.mod_small; lia).
    rewrite Hu4.
    destruct (sector_indices_app sectors stacks from (Z.to_nat sectors) 0
                (from * (sectors + 1)) (from * (sectors + 1) + sectors + 1) indices)
      as (row & -> & Hrow_all & Hrow_len); [lia | lia | done | lia | lia | lia | lia |].
    destruct (IH (from + 1)%Z (indices ++ row)) as (new & -> & Hall & Hlen);
      [lia | lia | done |].
    exists (row ++ new). split; [by rewrite <- app_assoc |].
    split; [by apply Forall_app |].
    rewrite length_app, Nat2Z.inj_add, Hrow_len, Hlen, Z2Nat.id by lia.
    destruct (Z.eqb_spec from 0), (Z.eqb_spec from (stacks - 1));
      repeat case_decide; lia.
Qed.

(** X11: for a sphere of [stacks] stacks and [sectors] sectors whose vertex
    count (stacks+1)(sectors+1) is below 2^32, [createSphere] called on
    empty vectors writes 8 floats for each vertex and 6 indices for each
    sector of each stack but one (none without stacks), and every index
    names a vertex of the mesh, so the indexed draw stays inside the vertex
    buffer. *)
Theorem sphere_indices_in_range
    (cosf sinf : float -> float) (radius : float) (sectors stacks : Z) :
  (0 <= sectors)%Z ->
  (0 <= stacks)%Z ->
  ((stacks + 1) * (sectors + 1) < 2 ^ 32)%Z ->
  let mesh := createSphere cosf sinf [] [] radius sectors stacks in
  Z.of_nat (length mesh.1) = (8 * ((stacks + 1) * (sectors + 1)))%Z /\
  Z.of_nat (length mesh.2) = (6 * sectors * Z.max 0 (stacks - 1))%Z /\
  Forall (fun k => (0 <= k < (stacks + 1) * (sectors + 1))%Z) mesh.2.
Proof.
  intros Hs Ht HB mesh. unfold mesh, createSphere. cbn [fst snd]. split; [| ].
  - rewrite stack_vertices_length. cbn [length].
    rewrite Nat2Z.inj_add, Nat2Z.inj_mul, Nat2Z.inj_mul, !Z2Nat.id by lia. cbn. lia.
  - destruct (stack_indices_app sectors stacks (Z.to_nat stacks) 0 [])
      as (new & -> & Hall & Hlen); [done | done | lia | done |].
    cbn [app]. split; [| done]. rewrite Hlen, Z2Nat.id by lia.
    destruct (decide (stacks <= 1)%Z) as [Hle | Hgt].
    + assert (stacks = 0 \/ stacks = 1)%Z as [-> | ->] by lia;
        repeat case_decide; cbn in *; lia.
    + rewrite Z.max_r by lia. repeat case_decide; lia.
Qed.

Lemma sphere_indices_in_range_witness :
  let mesh := createSphere (fun x => x) (fun x => x) [] [] (lit 2 10) 36 18 in
  Z.of_nat (length mesh.1) = (8 * ((18 + 1) * (36 + 1)))%Z /\
  Z.of_nat (length mesh.2) = (6 * 36 * Z.max 0 (18 - 1))%Z /\
  Forall (fun k => (0 <= k < (18 + 1) * (36 + 1))%Z) mesh.2.
Proof.
  apply (sphere_indices_in_range (fun x => x) (fun x => x) (lit 2 10) 36 18).
  - lia.
  - lia.
  - vm_compute; reflexivity.
Defined.

Lemma processInput_pressed (key_L key_M : bool) (st : switches) :
  lKeyPressed (processInput key_L key_M st) = key_L /\
  mKeyPressed (processInput key_L key_M st) = key_M.
Proof. destruct st as [[] [] [] []], key_L, key_M; by split. Qed.

Lemma processInput_toggle (key_L key_M : bool) (st : switches) :
  lightOn (processInput key_L key_M st)
  = xorb (lightOn st) (key_L && negb (lKeyPressed st)) /\
  magentaOn (processInput key_L key_M st)
  = xorb (magentaOn st) (key_M && negb (mKeyPressed st)).
Proof. destruct st as [[] [] [] []], key_L, key_M; by split. Qed.

(** X12: over any sequence of frames, the light is switched once for each
    frame in which L is down and was up in the frame before, and only
    then, so a key held down for many frames switches it once; the same
    holds of the material and M, each key acting on its own switch. *)
Theorem switches_follow_key_presses (keys : list (bool * bool)) (st : switches) :
  lightOn (frames keys st)
  = xorb (lightOn st) (Nat.odd (rising_edges (lKeyPressed st) (fst <$> keys))) /\
  magentaOn (frames keys st)
  = xorb (magentaOn st) (Nat.odd (rising_edges (mKeyPressed st) (snd <$> keys))).
Proof.
  revert st. induction keys as [|[key_L key_M] keys IH]; intros st.
  - cbn. by rewrite !xorb_false_r.
  - cbn [frames fmap list_fmap rising_edges fst snd].
    destruct (IH (processInput key_L key_M st)) as [-> ->].
    destruct (processInput_pressed key_L key_M st) as [-> ->].
    destruct (processInput_toggle key_L key_M st) as [-> ->].
    rewrite !Nat.odd_add.
    split.
    + destruct (key_L && negb (lKeyPressed st)); cbn [Nat.odd];
        by destruct (lightOn st), (Nat.odd _).
    + destruct (key_M && negb (mKeyPressed st)); cbn [Nat.odd];
        by destruct (magentaOn st), (Nat.odd _).
Qed.
End SphereMesh.

(** ** The two evaluators compute the same points *)

Section EvaluatorsAgree.
Import F32.

Lemma coordinates_cons (p : BezierCurve.Point) (l : list BezierCurve.Point) :
  coordinates (p :: l) = BezierCurve.p_x p :: BezierCurve.p_y p :: coordinates l.
Proof. reflexivity. Qed.

Lemma length_coordinates (l : list BezierCurve.Point) :
  length (coordinates l) = length l * 2.
Proof.
  induction l as [|p l IH]; [done |]. rewrite coordinates_cons. cbn [length]. lia.
Qed.

Lemma lookup_coordinates (l : list BezierCurve.Point) (j : nat) (p : BezierCurve.Point) :
  l !! j = Some p ->
  coordinates l !! (j * 2) = Some (BezierCurve.p_x p) /\
  coordinates l !! (j * 2 + 1) = Some (BezierCurve.p_y p).
Proof.
  revert j. induction l as [|q l IH]; intros [|j] Hj; try done.
  - cbn in Hj. by simplify_eq.
  - rewrite coordinates_cons. cbn in Hj. apply IH in Hj as [Hx Hy].
    replace (S j * 2) with (S (S (j * 2))) by lia.
    replace (S (S (j * 2)) + 1) with (S (S (j * 2 + 1))) by lia. done.
Qed.

Lemma coordinates_insert (l : list BezierCurve.Point) (j : nat) (p : BezierCurve.Point) :
  coordinates (<[j := p]> l)
  = <[j * 2 + 1 := BezierCurve.p_y p]> (<[j * 2 := BezierCurve.p_x p]> (coordinates l)).
Proof.
  revert j. induction l as [|q l IH]; intros [|j]; try done.
  cbn [insert list_insert]. rewrite !coordinates_cons, IH.
  replace (S j * 2) with (S (S (j * 2))) by lia.
  replace (S (S (j * 2)) + 1) with (S (S (j * 2 + 1))) by lia. done.
Qed.

Lemma blend_agrees (t : float) (temp temp' : list BezierCurve.Point) (j : nat) :
  BezierCurve.blend t temp j = Ok temp' ->
  Editor.blend t (coordinates temp) j = Ok (coordinates temp').
Proof.
  unfold BezierCurve.blend. intros H. do 2 bind_inv H.
  apply rd_Ok in H0, H1. apply wr_Ok in H as [Hj ->].
  destruct (lookup_coordinates _ _ _ H0) as [Hax Hay].
  destruct (lookup_coordinates _ _ _ H1) as [Hbx Hby].
  replace (S j * 2) with ((j + 1) * 2) in Hbx by lia.
  replace (S j * 2 + 1) with ((j + 1) * 2 + 1) in Hby by lia.
  pose proof (length_coordinates temp) as Hl.
  unfold Editor.blend.
  rewrite (rd_lookup _ _ _ Hax), (rd_lookup _ _ _ Hbx). cbn [mbind result_bind].
  rewrite wr_lt by lia. cbn [mbind result_bind].
  rewrite (rd_lookup _ (j * 2 + 1) (BezierCurve.p_y r)),
          (rd_lookup _ ((j + 1) * 2 + 1) (BezierCurve.p_y r0));
    [| by rewrite list_lookup_insert_ne by lia | by rewrite list_lookup_insert_ne by lia].
  cbn [mbind result_bind]. rewrite wr_lt by (rewrite length_insert; lia).
  by rewrite coordinates_insert.
Qed.

Lemma blend_row_agrees (t : float) (cnt from : nat) (temp temp' : list BezierCurve.Point) :
  BezierCurve.blend_row t cnt from temp = Ok temp' ->
  Editor.blend_row t cnt from (coordinates temp) = Ok (coordinates temp').
Proof.
  revert from temp. induction cnt as [|cnt IH]; intros from temp H.
  - cbn in H. by simplify_eq.
  - cbn [BezierCurve.blend_row] in H. bind_inv H.
    cbn [Editor.blend_row]. rewrite (blend_agrees _ _ _ _ H0). cbn [mbind result_bind].
    by apply IH.
Qed.

Lemma blend_rows_agrees (t : float) (size cnt from : nat)
    (temp temp' : list BezierCurve.Point) :
  0 < size ->
  BezierCurve.blend_rows t size cnt from temp = Ok temp' ->
  Editor.blend_rows t (Z.of_nat size - 1) cnt from (coordinates temp)
  = Ok (coordinates temp').
Proof.
  intros Hsize. revert from temp. induction cnt as [|cnt IH]; intros from temp H.
  - cbn in H. by simplify_eq.
  - cbn [BezierCurve.blend_rows] in H. bind_inv H.
    cbn [Editor.blend_rows].
    replace (Z.to_nat (Z.of_nat size - 1 - Z.of_nat from + 1)) with (size - from) by lia.
    rewrite (blend_row_agrees _ _ _ _ _ H0). cbn [mbind result_bind].
    by apply IH.
Qed.

(** X13: for a non-empty list of control points and any parameter, the
    sample the resolution-based editor appends for the coordinate buffer
    of the list is, bit for bit, the point the step-based editor computes
    for the list at the same parameter. *)
Theorem evaluators_agree
    (control_points : list BezierCurve.Point) (resolution i : Z) (curve : list float) :
  0 < length control_points ->
  exists p,
    BezierCurve.compute_point (div (of_Z i) (of_Z resolution)) control_points [] = Ok [p] /\
    Editor.sample resolution (coordinates control_points)
      (Z.of_nat (length control_points) - 1) curve i
    = Ok (curve ++ [BezierCurve.p_x p; BezierCurve.p_y p]).
Proof.
  intros Hlen. set (t := div (of_Z i) (of_Z resolution)).
  destruct (compute_point_Ok t control_points [] Hlen) as (p & Hp & _).
  exists p. split; [done |].
  unfold BezierCurve.compute_point in Hp. bind_inv Hp.
  destruct r as [|q temp]; cbn [app] in Hp; [by simplify_eq |]. injection Hp as ->.
  unfold Editor.sample. fold t.
  replace (Z.to_nat (Z.of_nat (length control_points) - 1))
    with (length control_points - 1) by lia.
  rewrite (blend_rows_agrees _ _ _ _ _ _ Hlen Hp0). cbn [mbind result_bind].
  by rewrite coordinates_cons.
Qed.

Lemma evaluators_agree_witness :
  exists p,
    BezierCurve.compute_point (div (of_Z 1) (of_Z 2))
      [BezierCurve.mkPoint zero zero; BezierCurve.mkPoint (of_Z 5) (of_Z 10);
       BezierCurve.mkPoint (of_Z 10) zero] [] = Ok [p] /\
    Editor.sample 2
      (coordinates [BezierCurve.mkPoint zero zero; BezierCurve.mkPoint (of_Z 5) (of_Z 10);
                    BezierCurve.mkPoint (of_Z 10) zero])
      (Z.of_nat 3 - 1) [] 1
    = Ok ([] ++ [BezierCurve.p_x p; BezierCurve.p_y p]).
Proof.
  apply (evaluators_agree
           [BezierCurve.mkPoint zero zero; BezierCurve.mkPoint (of_Z 5) (of_Z 10);
            BezierCurve.mkPoint (of_Z 10) zero] 2 1 []).
  vm_compute; lia.
Defined.
End EvaluatorsAgree.

(** ** The only faults of the two editors *)

Section Faults.
Import F32.

(** X14: an operation of the step-based editor always finishes, and the
    only one that can leave the list is a primary release during a drag
    whose handle lies at or past the end of the list. *)
Theorem step_faults_only_on_stale_release (o : BezierCurve.op) (st : BezierCurve.state) :
  match BezierCurve.step o st with
  | Ok _ => True
  | OutOfFuel => False
  | OutOfRange =>
      exists x y,
        o = BezierCurve.Release x y GLFW_MOUSE_BUTTON_LEFT /\
        BezierCurve.is_moving st = true /\
        length (BezierCurve.control_points st) <= BezierCurve.move_iter st
  end.
Proof.
  destruct o as [x y button | x y button | key action |]; cbn [BezierCurve.step].
  - unfold BezierCurve.handle_mouse_press.
    destruct (_ && _); [by destruct (BezierCurve.find_close _ _ _) |].
    destruct (button =? _)%Z; [| done].
    destruct (BezierCurve.find_close _ _ _); [| done]. cbn zeta.
    by edestruct compute_curve_total as [curve ->].
  - unfold BezierCurve.handle_mouse_release.
    destruct (Z.eqb_spec button GLFW_MOUSE_BUTTON_LEFT) as [-> |]; [| done].
    destruct (BezierCurve.is_moving st) eqn:Hm.
    + unfold wr. destruct (decide (_ < _)) as [Hlt | Hge]; cbn [mbind result_bind].
      * by edestruct compute_curve_total as [curve ->].
      * exists x, y. split; [done |]. split; [done | lia].
    + cbn zeta. by edestruct compute_curve_total as [curve ->].
  - unfold BezierCurve.handle_key. by repeat case_match.
  - by edestruct compute_curve_total as [curve ->].
Qed.

Lemma findPointUnderCursor_total (controlPoints : list float) (x y threshold : float) :
  exists r, Editor.findPointUnderCursor controlPoints x y threshold = Ok r.
Proof.
  unfold Editor.findPointUnderCursor.
  destruct (find_loop_first controlPoints x y threshold (length controlPoints / 2) 0)
    as (r & Hr & _); [lia |].
  by exists r.
Qed.

(** X15: for a buffer with room for one more point below 2^31
    coordinates, the mouse-button callback of the resolution-based editor
    always succeeds, and the cursor callback leaves the buffer only during
    a drag whose index is below -1 or names a pair at or past the end. *)
Theorem event_faults_only_on_stale_move (e : Editor.event) (st : Editor.state) :
  (Z.of_nat (length (Editor.controlPoints st)) + 2 < 2 ^ 31)%Z ->
  match Editor.step e st with
  | Ok _ => True
  | OutOfFuel => False
  | OutOfRange =>
      exists xpos ypos,
        e = Editor.CursorPos xpos ypos /\
        Editor.dragging st = true /\
        ((Editor.draggedIndex st < -1)%Z \/
         (Z.of_nat (length (Editor.controlPoints st)) <= Editor.draggedIndex st * 2 + 1)%Z)
  end.
Proof.
  intros Hint. destruct e as [button action xpos ypos | xpos ypos]; cbn [Editor.step].
  - unfold Editor.mouse_button_callback.
    destruct (action =? GLFW_PRESS)%Z; [| by destruct (action =? GLFW_RELEASE)%Z].
    destruct (Editor.screenToGLCoords xpos ypos) as [mx my].
    destruct (button =? GLFW_MOUSE_BUTTON_LEFT)%Z.
    + destruct (findPointUnderCursor_total (Editor.controlPoints st) mx my
                  Editor.default_threshold) as [r ->].
      cbn [mbind result_bind]. destruct (negb _); [done |].
      edestruct updateBuffers_Ok as [curve ->]; [| done].
      cbn [Editor.controlPoints]. rewrite length_app. cbn [length]. lia.
    + destruct (_ && _); [| done].
      destruct (findPointUnderCursor_total (Editor.controlPoints st) mx my
                  Editor.default_threshold) as [r ->].
      cbn [mbind result_bind]. destruct (negb _); [| done].
      destruct (decide _); [| done].
      edestruct updateBuffers_Ok as [curve ->]; [| done].
      cbn [Editor.controlPoints].
      pose proof (length_erase_le (Editor.controlPoints st) (Z.to_nat r * 2) 2). lia.
  - unfold Editor.cursor_position_callback.
    destruct (Editor.dragging st) eqn:Hd; cbn [andb]; [| done].
    destruct (Z.eqb_spec (Editor.draggedIndex st) (-1)) as [| Hne]; cbn [negb]; [done |].
    destruct (Editor.screenToGLCoords xpos ypos) as [mx my].
    unfold wr_int at 2.
    destruct (Z.ltb_spec (Editor.draggedIndex st * 2) 0) as [Hneg | Hpos].
    { exists xpos, ypos. split; [done |]. split; [done |]. left. lia. }
    unfold wr. destruct (decide (_ < _)) as [Hlt | Hge]; cbn [mbind result_bind].
    + unfold wr_int. destruct (Z.ltb_spec (Editor.draggedIndex st * 2 + 1) 0); [lia |].
      unfold wr. rewrite length_insert.
      destruct (decide (_ < _)) as [Hlt' | Hge']; cbn [mbind result_bind].
      * edestruct updateBuffers_Ok as [curve ->]; [| done].
        cbn [Editor.controlPoints]. rewrite !length_insert. lia.
      * exists xpos, ypos. split; [done |]. split; [done |]. right. lia.
    + exists xpos, ypos. split; [done |]. split; [done |]. right. lia.
Qed.

Lemma event_faults_only_on_stale_move_witness :
  match Editor.step (Editor.CursorPos (F64.of_Z 720) (F64.of_Z 60))
          (Editor.mkState (take 6 Editor.initial_points) [] true 3) with
  | Ok _ => True
  | OutOfFuel => False
  | OutOfRange =>
      exists xpos ypos,
        Editor.CursorPos (F64.of_Z 720) (F64.of_Z 60) = Editor.CursorPos xpos ypos /\
        true = true /\
        ((3 < -1)%Z \/ (Z.of_nat (length (take 6 Editor.initial_points)) <= 3 * 2 + 1)%Z)
  end.
Proof.
  apply (event_faults_only_on_stale_move
           (Editor.CursorPos (F64.of_Z 720) (F64.of_Z 60))
           (Editor.mkState (take 6 Editor.initial_points) [] true 3)).
  vm_compute; reflexivity.
Defined.
End Faults.

(** ** The evaluators compute De Casteljau's points *)

Section Refinement.
Import F32.














End Refinement.
